(** * Account health and failure classification: the pool manager

    A shallow embedding of the account pool manager exercised by the
    handler-flow integration test ([MockAccountManager]), together with the
    error-classifier functions of the proxy, and the properties the
    specification states about them; then the manager's callers and test
    runner, and the state helpers of the web console (dashboard filters,
    model families, log buffer, console logger), with the properties their
    code shows. *)

From Stdlib Require Import ZArith String Ascii List Bool Lia.
From stdpp Require Import base option list gmap strings.

Import ListNotations.
Local Open Scope Z_scope.

(** ** JavaScript values

    The fields of an account and the arguments of the mutators are
    dynamically typed.  Only the part of the value space that the manager
    distinguishes is kept: [undefined], [null], booleans, numbers (integer
    time stamps and counters) and strings. *)

Inductive JsValue : Type :=
| JsUndefined
| JsNull
| JsBool (b : bool)
| JsNumber (n : Z)
| JsString (s : string).

#[global] Instance JsValue_eq_dec : EqDecision JsValue.
Proof. solve_decision. Defined.

(** [ToBoolean]: what [!v], [v || w] and [if (v)] test. *)
Definition truthy (v : JsValue) : bool :=
  match v with
  | JsUndefined | JsNull => false
  | JsBool b => b
  | JsNumber n => negb (n =? 0)
  | JsString s => negb (String.eqb s EmptyString)
  end.

(** [a || b] *)
Definition js_or (a b : JsValue) : JsValue := if truthy a then a else b.

(** [a !== b] on the values above (no objects, no NaN). *)
Definition strict_ne (a b : JsValue) : bool := negb (bool_decide (a = b)).

(** A parameter declared [p = d]: the default applies to [undefined] only. *)
Definition default_param (v d : JsValue) : JsValue :=
  match v with JsUndefined => d | _ => v end.

(** ** Accounts and the manager *)

(** One rate-limit window, [{ resetAt }]. *)
Record RateLimit : Type := { resetAt : Z }.

(** An account object of the pool.  [isInvalid] is only ever written with
    [true] or [false]; [enabled] is tested with [!== false], so it stays a
    JavaScript value; [invalidAt] is absent ([undefined]) until [markInvalid]
    writes the clock into it. *)
Record Account : Type := {
  email : string;
  isInvalid : bool;
  invalidReason : JsValue;
  verifyUrl : JsValue;
  invalidAt : JsValue;
  modelRateLimits : gmap string RateLimit;
  consecutiveFailures : Z;
  enabled : JsValue;
}.

(** The entries pushed on [_log]. *)
Inductive LogEntry : Type :=
| LogMarkInvalid (email : string) (reason verifyUrl : JsValue)
| LogClearInvalid (email : string)
| LogMarkRateLimited (email : string) (resetMs : Z) (model : string)
| LogNotifySuccess (email : string) (model : string)
| LogNotifyFailure (email : string) (model : string)
| LogNotifyRateLimit (email : string) (model : string).

Record MockAccountManager : Type := {
  _accounts : list Account;
  _log : list LogEntry;
  _savedToDisk : Z;
}.

(** [constructor(accounts)]: every given object is copied ([...a]) and the six
    health fields are overwritten; whatever else the object carried (its
    email, a stale [invalidAt]) is kept. *)
Definition constructor (accounts : list Account) : MockAccountManager :=
  {| _accounts :=
       map (fun a => {| email := email a;
                        isInvalid := false;
                        invalidReason := JsNull;
                        verifyUrl := JsNull;
                        invalidAt := invalidAt a;
                        modelRateLimits := ∅;
                        consecutiveFailures := 0;
                        enabled := JsBool true |}) accounts;
     _log := [];
     _savedToDisk := 0 |}.

(** ** Queries *)

(** [this._accounts.filter(a => !a.isInvalid && a.enabled !== false)] *)
Definition getAvailableAccounts (this : MockAccountManager) (model : string)
  : list Account :=
  List.filter
    (fun a => negb (isInvalid a) && strict_ne (enabled a) (JsBool false))
    (_accounts this).

Definition getAllAccounts (this : MockAccountManager) : list Account :=
  _accounts this.

(** [enabled.length > 0 && enabled.every(a => a.isInvalid)] *)
Definition isAllAccountsInvalid (this : MockAccountManager) : bool :=
  let enabled_ :=
    List.filter (fun a => strict_ne (enabled a) (JsBool false)) (_accounts this) in
  (0 <? Z.of_nat (length enabled_)) && forallb (fun a => isInvalid a) enabled_.

(** ** Mutators

    [this._accounts.find(a => a.email === email)] yields the first account
    with that email, and the assignments that follow write into that object,
    which stays at its place in the array. *)

Definition has_email (e : string) (a : Account) : bool := String.eqb (email a) e.

(** The array after the object found by [find p] has been replaced by [f] of
    it: the first match changes, everything else stays. *)
Fixpoint update_found (p : Account -> bool) (f : Account -> Account)
  (l : list Account) : list Account :=
  match l with
  | [] => []
  | a :: t => if p a then f a :: t else a :: update_found p f t
  end.

(** The four assignments of [markInvalid]. *)
Definition set_invalid (reason verifyUrl : JsValue) (now : Z) (acc : Account)
  : Account :=
  {| email := email acc;
     isInvalid := true;
     invalidReason := reason;
     verifyUrl := js_or verifyUrl JsNull;
     invalidAt := JsNumber now;
     modelRateLimits := modelRateLimits acc;
     consecutiveFailures := consecutiveFailures acc;
     enabled := enabled acc |}.

(** The three assignments of [clearInvalid]. *)
Definition reset_invalid (acc : Account) : Account :=
  {| email := email acc;
     isInvalid := false;
     invalidReason := JsNull;
     verifyUrl := JsNull;
     invalidAt := invalidAt acc;
     modelRateLimits := modelRateLimits acc;
     consecutiveFailures := consecutiveFailures acc;
     enabled := enabled acc |}.

(** [markInvalid(email, reason, verifyUrl = null)]; [now] is what
    [Date.now()] returns during the call.  The result is the returned boolean
    and the manager after the call. *)
Definition markInvalid (this : MockAccountManager) (now : Z)
  (email_ : string) (reason verifyUrl_ : JsValue) : bool * MockAccountManager :=
  let verifyUrl_ := default_param verifyUrl_ JsNull in
  match List.find (has_email email_) (_accounts this) with
  | None => (false, this)
  | Some _ =>
      (true,
       {| _accounts :=
            update_found (has_email email_) (set_invalid reason verifyUrl_ now)
              (_accounts this);
          _log := _log this ++ [LogMarkInvalid email_ reason verifyUrl_];
          _savedToDisk := _savedToDisk this |})
  end.

(** [clearInvalid(email)] *)
Definition clearInvalid (this : MockAccountManager) (email_ : string)
  : bool * MockAccountManager :=
  match List.find (has_email email_) (_accounts this) with
  | None => (false, this)
  | Some _ =>
      (true,
       {| _accounts := update_found (has_email email_) reset_invalid (_accounts this);
          _log := _log this ++ [LogClearInvalid email_];
          _savedToDisk := _savedToDisk this + 1 |})
  end.

(** [markRateLimited(email, resetMs, model)]: the call is logged, nothing
    else happens. *)
Definition markRateLimited (this : MockAccountManager) (email_ : string)
  (resetMs : Z) (model : string) : MockAccountManager :=
  {| _accounts := _accounts this;
     _log := _log this ++ [LogMarkRateLimited email_ resetMs model];
     _savedToDisk := _savedToDisk this |}.

(** The notification hooks only log; [saveToDisk] counts. *)
Definition notifySuccess (this : MockAccountManager) (account : Account)
  (model : string) : MockAccountManager :=
  {| _accounts := _accounts this;
     _log := _log this ++ [LogNotifySuccess (email account) model];
     _savedToDisk := _savedToDisk this |}.

Definition notifyFailure (this : MockAccountManager) (account : Account)
  (model : string) : MockAccountManager :=
  {| _accounts := _accounts this;
     _log := _log this ++ [LogNotifyFailure (email account) model];
     _savedToDisk := _savedToDisk this |}.

Definition notifyRateLimit (this : MockAccountManager) (account : Account)
  (model : string) : MockAccountManager :=
  {| _accounts := _accounts this;
     _log := _log this ++ [LogNotifyRateLimit (email account) model];
     _savedToDisk := _savedToDisk this |}.

Definition saveToDisk (this : MockAccountManager) : MockAccountManager :=
  {| _accounts := _accounts this;
     _log := _log this;
     _savedToDisk := _savedToDisk this + 1 |}.

(** A call of one of the manager's state-changing methods, and the manager
    after a sequence of them. *)
Inductive Call : Type :=
| CallMarkInvalid (now : Z) (email : string) (reason verifyUrl : JsValue)
| CallClearInvalid (email : string)
| CallMarkRateLimited (email : string) (resetMs : Z) (model : string)
| CallNotifySuccess (account : Account) (model : string)
| CallNotifyFailure (account : Account) (model : string)
| CallNotifyRateLimit (account : Account) (model : string)
| CallSaveToDisk.

Definition call (this : MockAccountManager) (c : Call) : MockAccountManager :=
  match c with
  | CallMarkInvalid now e reason url => snd (markInvalid this now e reason url)
  | CallClearInvalid e => snd (clearInvalid this e)
  | CallMarkRateLimited e resetMs model => markRateLimited this e resetMs model
  | CallNotifySuccess a model => notifySuccess this a model
  | CallNotifyFailure a model => notifyFailure this a model
  | CallNotifyRateLimit a model => notifyRateLimit this a model
  | CallSaveToDisk => saveToDisk this
  end.

Definition calls (this : MockAccountManager) (cs : list Call) : MockAccountManager :=
  fold_left call cs this.

(** The account a later [find] by email sees. *)
Definition findAccount (this : MockAccountManager) (e : string) : option Account :=
  List.find (has_email e) (_accounts this).

(** ** The pool as the test suites build it *)

Definition bare (e : string) : Account :=
  {| email := e; isInvalid := false; invalidReason := JsUndefined;
     verifyUrl := JsUndefined; invalidAt := JsUndefined; modelRateLimits := ∅;
     consecutiveFailures := 0; enabled := JsUndefined |}.

Definition pool_ab : MockAccountManager :=
  constructor [bare "a@test.com"; bare "b@test.com"].

Definition pool_abc : MockAccountManager :=
  constructor [bare "a@test.com"; bare "b@test.com"; bare "c@test.com"].

(** ** Strings as the classifier reads them

    Texts are [string]s; [toLowerCase] and [toUpperCase] fold the ASCII
    letters, which is all the markers are made of. *)

Definition lower_char (c : ascii) : ascii :=
  let n := nat_of_ascii c in
  if (65 <=? n)%nat && (n <=? 90)%nat then ascii_of_nat (n + 32) else c.

Definition upper_char (c : ascii) : ascii :=
  let n := nat_of_ascii c in
  if (97 <=? n)%nat && (n <=? 122)%nat then ascii_of_nat (n - 32) else c.

Fixpoint map_chars (f : ascii -> ascii) (s : string) : string :=
  match s with
  | EmptyString => EmptyString
  | String c t => String (f c) (map_chars f t)
  end.

Definition toLowerCase : string -> string := map_chars lower_char.
Definition toUpperCase : string -> string := map_chars upper_char.

(** [s.startsWith(p)] *)
Fixpoint startsWith (s p : string) {struct p} : bool :=
  match p, s with
  | EmptyString, _ => true
  | String _ _, EmptyString => false
  | String b p', String a s' => Ascii.eqb a b && startsWith s' p'
  end.

(** [s.includes(sub)] *)
Fixpoint includes (s sub : string) : bool :=
  startsWith s sub ||
  match s with
  | EmptyString => false
  | String _ s' => includes s' sub
  end.

(** [sub] occurs in [s], letter for letter. *)
Definition occurs (sub s : string) : Prop :=
  exists pre post, s = pre +:+ sub +:+ post.

(** [m] occurs in [s] in some letter case: a piece of [s] differs from [m]
    in the case of its letters only. *)
Definition occurs_any_case (m s : string) : Prop :=
  exists pre mid post,
    s = pre +:+ mid +:+ post /\ toLowerCase mid = toLowerCase m.

(** The double quote, and fixtures written with a back quote in its place. *)
Definition dquote : ascii := "034"%char.
Definition backquote : ascii := "096"%char.
Definition quoted : string -> string :=
  map_chars (fun c => if Ascii.eqb c backquote then dquote else c).

(** ** The error classifier *)

(** Modelled from the spec: the markers [isValidationRequired] looks for (the
    function and its marker list are in src/cloudcode/rate-limit-state.js,
    which is not among the source files): validation required, account
    disabled, user disabled, in the spelling of the payloads. *)
Definition validationMarkers : list string :=
  ["validation_required"; "account_disabled"; "user_disabled"]%string.

(** Modelled from the spec: [isValidationRequired] (imported by the tests from
    src/cloudcode/rate-limit-state.js, which is not among the source files).
    The body matches when it contains one of the three high-signal markers,
    in any letter case, anywhere in the text (free text or the text of a
    structured reason field); a null or empty body matches nothing. *)
Definition isValidationRequired (errorText : option string) : bool :=
  match errorText with
  | None => false
  | Some text => existsb (includes (toLowerCase text)) validationMarkers
  end.

(** Modelled from the spec: the error values [isAccountForbiddenError]
    classifies (src/errors.js is not among the source files).  An error is
    either a plain [Error] or the dedicated [AccountForbiddenError], which
    carries the code [ACCOUNT_FORBIDDEN], the account's email and
    [retryable = false]. *)
Inductive ErrorKind : Type := PlainError | AccountForbiddenKind.

Record ErrorValue : Type := {
  kind : ErrorKind;
  message : string;
  code : option string;
  accountEmail : option string;
  retryable : option bool;
}.

(** Modelled from the spec: the marker token of the explicit kind, the
    [code] the tests read off an [AccountForbiddenError]. *)
Definition accountForbiddenMarker : string := "ACCOUNT_FORBIDDEN".

(** Modelled from the spec: [new Error(msg)], an error of no particular
    kind. *)
Definition Error (msg : string) : ErrorValue :=
  {| kind := PlainError; message := msg; code := None;
     accountEmail := None; retryable := None |}.

(** Modelled from the spec: [new AccountForbiddenError(msg, accountEmail)]
    (src/errors.js, not among the source files), with the properties the
    tests read: the code, the email, [retryable = false]. *)
Definition AccountForbiddenError (msg : string) (accountEmail_ : option string)
  : ErrorValue :=
  {| kind := AccountForbiddenKind; message := msg;
     code := Some accountForbiddenMarker;
     accountEmail := accountEmail_; retryable := Some false |}.

(** Modelled from the spec: [isAccountForbiddenError] (src/errors.js, not among
    the source files) is true for a value constructed as the explicit kind
    and for a value whose message carries the marker token, matched without
    regard to letter case like the rest of the taxonomy; nothing else. *)
Definition isAccountForbiddenError (error : ErrorValue) : bool :=
  match kind error with
  | AccountForbiddenKind => true
  | PlainError => includes (toUpperCase (message error)) accountForbiddenMarker
  end.

(** JSON documents, as [JSON.parse] returns them.  An object is the list of
    its members in document order. *)
#[local] Unset Elimination Schemes.
Inductive Json : Type :=
| JsonNull
| JsonBool (b : bool)
| JsonNumber (n : Z)
| JsonString (s : string)
| JsonArray (items : list Json)
| JsonObject (members : list (string * Json)).
#[local] Set Elimination Schemes.

Definition member (key : string) (j : Json) : option Json :=
  match j with
  | JsonObject ms =>
      match List.find (fun kv => String.eqb (fst kv) key) ms with
      | Some kv => Some (snd kv)
      | None => None
      end
  | _ => None
  end.

(** Modelled from the spec: the URL of one error-detail object (part of
    [extractVerificationUrl], not among the source files): its reason marks
    validation-required and its metadata carries the URL, under the member
    names of the structured payload in the tests. *)
Definition detailUrl (detail : Json) : option string :=
  match member "reason" detail, member "metadata" detail with
  | Some (JsonString reason), Some metadata =>
      if String.eqb (toLowerCase reason) "validation_required" then
        match member "validation_url" metadata with
        | Some (JsonString url) => Some url
        | _ => None
        end
      else None
  | _, _ => None
  end.

Fixpoint firstSome {A B : Type} (f : A -> option B) (l : list A) : option B :=
  match l with
  | [] => None
  | a :: t => match f a with Some b => Some b | None => firstSome f t end
  end.

(** Modelled from the spec: the structured path of [extractVerificationUrl],
    [error.details[i].metadata.validation_url] of the first detail that marks
    validation-required. *)
Definition structuredUrl (doc : Json) : option string :=
  match member "error" doc with
  | Some err =>
      match member "details" err with
      | Some (JsonArray details) => firstSome detailUrl details
      | _ => None
      end
  | None => None
  end.

(** Modelled from the spec: the account-verification domain, which the spec
    does not spell out, as every payload of the test suites has it. *)
Definition verificationPrefix : string := "https://accounts.google.com/".

Definition inChars (cs : list ascii) (c : ascii) : bool := existsb (Ascii.eqb c) cs.

(** White space ends a URL in free text. *)
Definition isSpace : ascii -> bool :=
  inChars [" "; "009"; "010"; "011"; "012"; "013"]%char.

(** The backslash. *)
Definition backslash : ascii := "092"%char.

(** Modelled from the spec: the characters it calls payload punctuation,
    not URL characters: closing bracket, angle bracket and brace, and the
    quotation marks.  The backslash stands with them: it opens an escape of
    a JSON payload and is no URL character either (the payload of
    part_003:267 goes on with an escaped line feed right after the URL). *)
Definition isPayloadDelimiter : ascii -> bool :=
  inChars ["]"; ">"; "}"; dquote; "'"; backslash]%char.

(** Modelled from the spec: sentence punctuation, which may be part of a
    URL but does not end one. *)
Definition isSentencePunctuation : ascii -> bool :=
  inChars ["."; ","; ";"; ":"; "!"; "?"]%char.

(** Modelled from the spec: a character at which a URL in free text is
    over, white space or payload syntax. *)
Definition endsCandidate (c : ascii) : bool := isSpace c || isPayloadDelimiter c.



(** Modelled from the spec: the text up to the first character that ends a
    URL. *)
Fixpoint takeUrlChars (s : string) : string :=
  match s with
  | EmptyString => EmptyString
  | String c t => if endsCandidate c then EmptyString else String c (takeUrlChars t)
  end.

(** Modelled from the spec: the free-text path of [extractVerificationUrl],
    the first occurrence of a URL of the verification domain, up to the next
    character that is no URL character (white space or payload syntax). *)
Fixpoint scanCandidate (text : string) : option string :=
  if startsWith text verificationPrefix then Some (takeUrlChars text)
  else match text with
       | EmptyString => None
       | String _ t => scanCandidate t
       end.

(** Modelled from the spec: the candidate without the sentence punctuation
    at its end; what is inside the URL stays. *)
Fixpoint trimTrailing (u : string) : string :=
  match u with
  | EmptyString => EmptyString
  | String c t =>
      match trimTrailing t with
      | EmptyString => if isSentencePunctuation c then EmptyString
                       else String c EmptyString
      | t' => String c t'
      end
  end.

(** Modelled from the spec: [extractVerificationUrl] (src/cloudcode/
    rate-limit-state.js, not among the source files).  A null or empty
    payload yields null.  The structured path is preferred: when the body
    parses as JSON and a detail carries the URL, that URL is returned
    verbatim.  Otherwise the free text is scanned and the candidate is
    trimmed.  [JSON_parse] is the platform's parser, [None] when it throws. *)
Definition extractVerificationUrl (JSON_parse : string -> option Json)
  (errorText : option string) : option string :=
  match errorText with
  | None => None
  | Some EmptyString => None
  | Some text =>
      match JSON_parse text ≫= structuredUrl with
      | Some url => Some url
      | None => trimTrailing <$> scanCandidate text
      end
  end.


(** Every character of [s] satisfies [p]. *)
Fixpoint allChars (p : ascii -> bool) (s : string) : bool :=
  match s with
  | EmptyString => true
  | String c t => p c && allChars p t
  end.


(** ** Statements of the specification, worded as the specification has them *)

(** [modelRateLimits[model]] holds a window whose [resetAt] has not passed
    at time [now]. *)
Definition rateLimitedAt (now : Z) (model : string) (a : Account) : Prop :=
  exists w, modelRateLimits a !! model = Some w /\ now < resetAt w.

Definition availableAsSpecified (now : Z) (model : string) (a : Account) : Prop :=
  enabled a <> JsBool false /\ isInvalid a = false /\ ~ rateLimitedAt now model a.

(** What the specification says [getAvailableAccounts(model)] returns, as far
    as membership goes (it also fixes the order). *)
Definition getAvailableAccounts_as_specified
  (this : MockAccountManager) (now : Z) (model : string) : Prop :=
  forall a, In a (getAvailableAccounts this model) <->
            In a (_accounts this) /\ availableAsSpecified now model a.

(** The account [a] carrying the rate-limit windows [limits] instead of its
    own. *)
Definition withRateLimits (limits : gmap string RateLimit) (a : Account) : Account :=
  {| email := email a; isInvalid := isInvalid a;
     invalidReason := invalidReason a; verifyUrl := verifyUrl a;
     invalidAt := invalidAt a; modelRateLimits := limits;
     consecutiveFailures := consecutiveFailures a; enabled := enabled a |}.

(** What the manager filters on: the two flags. *)
Definition selectable (a : Account) : Prop :=
  enabled a <> JsBool false /\ isInvalid a = false.

#[global] Instance selectable_dec (a : Account) : Decision (selectable a).
Proof. unfold selectable. apply _. Defined.

(** The manager after [markInvalid(email, reason, url)] and then
    [clearInvalid(email)]. *)
Definition roundTrip (this : MockAccountManager) (now : Z) (e : string)
  (reason url : JsValue) : MockAccountManager :=
  snd (clearInvalid (snd (markInvalid this now e reason url)) e).

(** The round trip as the specification has it: all four fields of the group
    are back at false and null. *)
Definition roundTrip_as_specified (this : MockAccountManager) (now : Z)
  (e : string) (reason url : JsValue) : Prop :=
  exists acc, findAccount (roundTrip this now e reason url) e = Some acc /\
    isInvalid acc = false /\ invalidReason acc = JsNull /\
    verifyUrl acc = JsNull /\ invalidAt acc = JsNull.

(** [markRateLimited] as the specification has it: the window is written,
    [isInvalid] is not touched. *)
Definition markRateLimited_as_specified (this : MockAccountManager)
  (e : string) (resetAtMs : Z) (model : string) : Prop :=
  forall acc, findAccount this e = Some acc ->
    exists acc', findAccount (markRateLimited this e resetAtMs model) e = Some acc' /\
      modelRateLimits acc' !! model = Some {| resetAt := resetAtMs |} /\
      isInvalid acc' = isInvalid acc.

(** A pool in which the only account is inside a rate-limit window for one
    model. *)
Definition limited_account : Account :=
  {| email := "a@test.com"; isInvalid := false; invalidReason := JsNull;
     verifyUrl := JsNull; invalidAt := JsUndefined;
     modelRateLimits := {[ "gemini-pro"%string := {| resetAt := 2000 |} ]};
     consecutiveFailures := 0; enabled := JsBool true |}.

Definition pool_limited : MockAccountManager :=
  {| _accounts := [limited_account]; _log := []; _savedToDisk := 0 |}.

(** The verification-url argument of a call is of the declared type:
    omitted, null or a string. *)
Definition urlTyped (c : Call) : Prop :=
  match c with
  | CallMarkInvalid _ _ _ url =>
      url = JsUndefined \/ url = JsNull \/ exists s, url = JsString s
  | _ => True
  end.

(** A stored verification url: null, or a string that is not empty. *)
Definition nullOrUrl (v : JsValue) : Prop :=
  v = JsNull \/ exists s, v = JsString s /\ s <> EmptyString.



(** ** The manager's callers in the handler-flow tests *)

(** [for (const acc of mgr.getAllAccounts()) mgr.markInvalid(acc.email, reason)]:
    the loop walks the live array, whose objects [markInvalid] writes into
    but which it never reorders.  [clock i] is what [Date.now()] returns in
    the [i]-th round; [todo] is what is left of the array to walk. *)
Fixpoint markEach (clock : nat -> Z) (i : nat) (todo : list Account)
  (reason : JsValue) (this : MockAccountManager) : MockAccountManager :=
  match todo with
  | [] => this
  | acc :: rest =>
      markEach clock (S i) rest reason
        (snd (markInvalid this (clock i) (email acc) reason JsUndefined))
  end.

Definition markAllInvalid (clock : nat -> Z) (reason : JsValue)
  (this : MockAccountManager) : MockAccountManager :=
  markEach clock 0 (getAllAccounts this) reason this.

(** The refresh logic of the web console as the tests replay it:
    [if (acc.isInvalid && acc.verifyUrl) mgr.clearInvalid(acc.email)], for an
    account object [acc] of the pool. *)
Definition refreshAccount (this : MockAccountManager) (acc : Account)
  : MockAccountManager :=
  if isInvalid acc && truthy (verifyUrl acc)
  then snd (clearInvalid this (email acc))
  else this.

(** The methods that answer with a constant and touch nothing. *)
Definition getConsecutiveFailures (this : MockAccountManager) (email_ : string) : Z := 0.
Definition incrementConsecutiveFailures (this : MockAccountManager) (email_ : string) : Z := 1.

(** ** The test runner of the handler-flow suite *)

(** The counters [passed], [failed] and the [failures] array. *)
Record Runner : Type := {
  passed : Z;
  failed : Z;
  failures : list (string * string);
}.

Definition runner0 : Runner := {| passed := 0; failed := 0; failures := [] |}.

(** [test(name, fn)]: [fn] either returns ([None]) or throws an error with a
    message ([Some message]). *)
Definition test (r : Runner) (name : string) (fn : option string) : Runner :=
  match fn with
  | None =>
      {| passed := passed r + 1; failed := failed r; failures := failures r |}
  | Some msg =>
      {| passed := passed r; failed := failed r + 1;
         failures := failures r ++ [(name, msg)] |}
  end.

Definition runTests (r : Runner) (tests : list (string * option string)) : Runner :=
  fold_left (fun r t => test r (fst t) (snd t)) tests r.

(** The status the suite exits with: [failures.length > 0 ? 1 : 0]. *)
Definition exitCode (r : Runner) : Z :=
  if (0 <? Z.of_nat (length (failures r))) then 1 else 0.

(** ** The dashboard filters (public/js/components/dashboard/filters.js)

    The filter functions act on the dashboard component and, through
    [savePreferences] and [component.updateTrendChart()], on the browser.
    One record holds the component's fields that the module reads or
    writes, and what it needs of the browser: whether [localStorage] throws,
    the entry stored under [dashboard_chart_prefs], and how often the trend
    chart was asked to update. *)

(** The object stored under [dashboard_chart_prefs]; a field the stored
    object lacks is [None]. *)
Record Prefs : Type := {
  prefs_timeRange : option string;
  prefs_displayMode : option string;
  prefs_selectedFamilies : option (list string);
  prefs_selectedModels : option (gmap string (list string));
}.

Record Dashboard : Type := {
  timeRange : string;
  displayMode : string;
  selectedFamilies : list string;
  selectedModels : gmap string (list string);
  showModelFilter : bool;
  showTimeRangeDropdown : bool;
  showDisplayModeDropdown : bool;
  families : list string;
  modelTree : gmap string (list string);
  storageThrows : bool;
  dashboard_chart_prefs : option Prefs;
  trendChartUpdates : nat;
}.

(** The component with its selection replaced. *)
Definition withSelection (fams : list string) (models : gmap string (list string))
  (c : Dashboard) : Dashboard :=
  {| timeRange := timeRange c; displayMode := displayMode c;
     selectedFamilies := fams; selectedModels := models;
     showModelFilter := showModelFilter c;
     showTimeRangeDropdown := showTimeRangeDropdown c;
     showDisplayModeDropdown := showDisplayModeDropdown c;
     families := families c; modelTree := modelTree c;
     storageThrows := storageThrows c;
     dashboard_chart_prefs := dashboard_chart_prefs c;
     trendChartUpdates := trendChartUpdates c |}.

(** [xs.includes(x)] and [xs.indexOf(x) > -1] on an array of strings. *)
Definition arrayIncludes (xs : list string) (x : string) : bool :=
  existsb (String.eqb x) xs.

(** [xs.splice(xs.indexOf(x), 1)] when [x] is in [xs]: the first [x] goes. *)
Fixpoint removeFirst (x : string) (xs : list string) : list string :=
  match xs with
  | [] => []
  | y :: t => if String.eqb x y then t else y :: removeFirst x t
  end.

(** [if (!xs.includes(x)) xs.push(x)] *)
Definition addIfMissing (xs : list string) (x : string) : list string :=
  if arrayIncludes xs x then xs else xs ++ [x].

(** [index > -1 ? splice(index, 1) : push(x)] *)
Definition toggleIn (xs : list string) (x : string) : list string :=
  if arrayIncludes xs x then removeFirst x xs else xs ++ [x].

(** [savePreferences(component)]: the four preference fields are written to
    the storage entry; when [localStorage] throws, the error is caught and
    nothing is stored. *)
Definition savePreferences (c : Dashboard) : Dashboard :=
  if storageThrows c then c
  else
    {| timeRange := timeRange c; displayMode := displayMode c;
       selectedFamilies := selectedFamilies c; selectedModels := selectedModels c;
       showModelFilter := showModelFilter c;
       showTimeRangeDropdown := showTimeRangeDropdown c;
       showDisplayModeDropdown := showDisplayModeDropdown c;
       families := families c; modelTree := modelTree c;
       storageThrows := storageThrows c;
       dashboard_chart_prefs :=
         Some {| prefs_timeRange := Some (timeRange c);
                 prefs_displayMode := Some (displayMode c);
                 prefs_selectedFamilies := Some (selectedFamilies c);
                 prefs_selectedModels := Some (selectedModels c) |};
       trendChartUpdates := trendChartUpdates c |}.

(** [component.updateTrendChart()], of which only the call is kept. *)
Definition updateTrendChart (c : Dashboard) : Dashboard :=
  {| timeRange := timeRange c; displayMode := displayMode c;
     selectedFamilies := selectedFamilies c; selectedModels := selectedModels c;
     showModelFilter := showModelFilter c;
     showTimeRangeDropdown := showTimeRangeDropdown c;
     showDisplayModeDropdown := showDisplayModeDropdown c;
     families := families c; modelTree := modelTree c;
     storageThrows := storageThrows c;
     dashboard_chart_prefs := dashboard_chart_prefs c;
     trendChartUpdates := S (trendChartUpdates c) |}.

(** [v || d] for a stored string: a missing or empty one gives the default. *)
Definition stringOr (v : option string) (d : string) : string :=
  match v with
  | Some (String c t) => String c t
  | _ => d
  end.

(** [loadPreferences(component)]: nothing happens when the storage throws or
    holds no entry; otherwise each of the four fields is taken from the
    entry, or set to its default. *)
Definition loadPreferences (c : Dashboard) : Dashboard :=
  if storageThrows c then c
  else
    match dashboard_chart_prefs c with
    | None => c
    | Some prefs =>
        {| timeRange := stringOr (prefs_timeRange prefs) "24h";
           displayMode := stringOr (prefs_displayMode prefs) "model";
           selectedFamilies := default [] (prefs_selectedFamilies prefs);
           selectedModels := default ∅ (prefs_selectedModels prefs);
           showModelFilter := showModelFilter c;
           showTimeRangeDropdown := showTimeRangeDropdown c;
           showDisplayModeDropdown := showDisplayModeDropdown c;
           families := families c; modelTree := modelTree c;
           storageThrows := storageThrows c;
           dashboard_chart_prefs := dashboard_chart_prefs c;
           trendChartUpdates := trendChartUpdates c |}
    end.

(** [setDisplayMode(component, mode)] *)
Definition setDisplayMode (c : Dashboard) (mode : string) : Dashboard :=
  updateTrendChart (savePreferences
    {| timeRange := timeRange c; displayMode := mode;
       selectedFamilies := selectedFamilies c; selectedModels := selectedModels c;
       showModelFilter := showModelFilter c;
       showTimeRangeDropdown := showTimeRangeDropdown c;
       showDisplayModeDropdown := false;
       families := families c; modelTree := modelTree c;
       storageThrows := storageThrows c;
       dashboard_chart_prefs := dashboard_chart_prefs c;
       trendChartUpdates := trendChartUpdates c |}).

(** [setTimeRange(component, range)] *)
Definition setTimeRange (c : Dashboard) (range : string) : Dashboard :=
  updateTrendChart (savePreferences
    {| timeRange := range; displayMode := displayMode c;
       selectedFamilies := selectedFamilies c; selectedModels := selectedModels c;
       showModelFilter := showModelFilter c;
       showTimeRangeDropdown := false;
       showDisplayModeDropdown := showDisplayModeDropdown c;
       families := families c; modelTree := modelTree c;
       storageThrows := storageThrows c;
       dashboard_chart_prefs := dashboard_chart_prefs c;
       trendChartUpdates := trendChartUpdates c |}).

(** [toggleFamily(component, family)] *)
Definition toggleFamily (c : Dashboard) (family : string) : Dashboard :=
  updateTrendChart (savePreferences
    (withSelection (toggleIn (selectedFamilies c) family) (selectedModels c) c)).

(** [isFamilySelected(component, family)] *)
Definition isFamilySelected (c : Dashboard) (family : string) : bool :=
  arrayIncludes (selectedFamilies c) family.

(** *** Property lookup in [selectedModels] and [modelTree]

    [selectedModels] and [modelTree] are plain objects: the maps above hold
    their own properties, and their prototype is [Object.prototype].  A
    lookup [obj[key]] of a key the object does not hold itself goes on to
    the prototype and finds what every plain object inherits. *)

(** The property names of [Object.prototype], as the language defines it. *)
Definition objectPrototypeNames : list string :=
  ["constructor"; "hasOwnProperty"; "isPrototypeOf"; "propertyIsEnumerable";
   "toLocaleString"; "toString"; "valueOf"; "__proto__";
   "__defineGetter__"; "__defineSetter__"; "__lookupGetter__";
   "__lookupSetter__"].

Definition inheritedName (key : string) : bool :=
  arrayIncludes objectPrototypeNames key.

(** What [obj[key]] finds: the array the object holds under [key]; or an
    inherited value, which is a function (the prototype object itself under
    [__proto__]): truthy, not iterable, and without [indexOf], [includes],
    [push] or [forEach]; or [undefined]. *)
Inductive Property : Type :=
  | OwnArray (models : list string)
  | InheritedValue
  | Undefined.

Definition getProperty (obj : gmap string (list string)) (key : string) : Property :=
  match obj !! key with
  | Some models => OwnArray models
  | None => if inheritedName key then InheritedValue else Undefined
  end.

(** How a call ends: the component as the call left it; whether a
    [TypeError] ended the call; and, when an assignment to the key
    [__proto__] reached the setter of [Object.prototype], the array that
    [selectedModels] inherits from since then, in place of
    [Object.prototype] (its own properties are not touched by that). *)
Record Outcome : Type := {
  component : Dashboard;
  threw : bool;
  newPrototype : option (list string);
}.

Definition returned (c : Dashboard) : Outcome :=
  {| component := c; threw := false; newPrototype := None |}.

Definition thrown (c : Dashboard) : Outcome :=
  {| component := c; threw := true; newPrototype := None |}.

(** The rest of [toggleModel] once [selectedModels[family]] is the array
    [models]: the model is spliced out or pushed, the preferences are saved
    and the chart is updated. *)
Definition toggleEntry (c : Dashboard) (family : string) (models : list string)
  (model : string) : Dashboard :=
  updateTrendChart (savePreferences
    (withSelection (selectedFamilies c)
       (<[family := toggleIn models model]> (selectedModels c)) c)).

(** [toggleModel(component, family, model)]: a family without an entry gets
    the empty array first.  For a family that has no entry but is the name
    of an inherited property, [!component.selectedModels[family]] is false,
    no entry is made, and [.indexOf] of the inherited value is not a
    function: the call throws before anything is changed. *)
Definition toggleModel (c : Dashboard) (family model : string) : Outcome :=
  match getProperty (selectedModels c) family with
  | OwnArray models => returned (toggleEntry c family models model)
  | Undefined => returned (toggleEntry c family [] model)
  | InheritedValue => thrown c
  end.

(** [component.selectedModels[family]?.includes(model) || false]; [None]
    when the call throws: [?.] stops at [undefined] only, and [.includes] of
    an inherited value is not a function. *)
Definition isModelSelected (c : Dashboard) (family model : string) : option bool :=
  match getProperty (selectedModels c) family with
  | OwnArray models => Some (arrayIncludes models model)
  | Undefined => Some false
  | InheritedValue => None
  end.

(** [selectedModels[family] = models], on the own properties of
    [selectedModels] and its new prototype, if it has one: a property the
    object holds is overwritten, a new key becomes a property of its own,
    except [__proto__], for which the setter of [Object.prototype] runs and
    makes the array the prototype. *)
Definition assignEntry (st : gmap string (list string) * option (list string))
  (family : string) (models : list string)
  : gmap string (list string) * option (list string) :=
  if String.eqb family "__proto__" && bool_decide (fst st !! family = None)
  then (fst st, Some models)
  else (<[family := models]> (fst st), snd st).

(** [families.forEach(family => selectedModels[family] = [...(modelTree[family] || [])])]:
    the state after the loop, and whether it threw.  The spread of an
    inherited value, which is not iterable, throws, and the loop is over;
    the right-hand side is evaluated before anything is assigned. *)
Fixpoint selectTree (tree : gmap string (list string)) (fams : list string)
  (st : gmap string (list string) * option (list string))
  : (gmap string (list string) * option (list string)) * bool :=
  match fams with
  | [] => (st, false)
  | family :: rest =>
      match getProperty tree family with
      | OwnArray models => selectTree tree rest (assignEntry st family models)
      | Undefined => selectTree tree rest (assignEntry st family [])
      | InheritedValue => (st, true)
      end
  end.

(** [selectAll(component)]: the families are copied first; when the loop
    throws, nothing is saved and the chart is not updated. *)
Definition selectAll (c : Dashboard) : Outcome :=
  let r := selectTree (modelTree c) (families c) (selectedModels c, None) in
  let c1 := withSelection (families c) (fst (fst r)) c in
  {| component := if snd r then c1 else updateTrendChart (savePreferences c1);
     threw := snd r;
     newPrototype := snd (fst r) |}.

(** [deselectAll(component)] *)
Definition deselectAll (c : Dashboard) : Dashboard :=
  updateTrendChart (savePreferences (withSelection [] ∅ c)).

(** One round of the second loop of [autoSelectNew], and whether it threw:
    the family is pushed if it is missing; an entry is made if
    [selectedModels[family]] is [undefined]; then every model of the tree
    that is missing from the entry is pushed.  [.forEach] of an inherited
    value of the tree is not a function, and neither is [.includes] of an
    inherited value of [selectedModels], which is called for the first
    model, if there is one. *)
Definition autoSelectFamily (tree : gmap string (list string))
  (st : list string * gmap string (list string)) (family : string)
  : (list string * gmap string (list string)) * bool :=
  let sf := addIfMissing (fst st) family in
  let sm := match getProperty (snd st) family with
            | Undefined => <[family := []]> (snd st)
            | _ => snd st
            end in
  match getProperty tree family with
  | InheritedValue => ((sf, sm), true)
  | Undefined => ((sf, sm), false)
  | OwnArray models =>
      match getProperty sm family with
      | OwnArray selected =>
          ((sf, <[family := fold_left addIfMissing models selected]> sm), false)
      | _ => ((sf, sm), match models with [] => false | _ :: _ => true end)
      end
  end.

(** [component.families.forEach(...)] with that round: a round that throws
    ends the loop. *)
Fixpoint autoSelectLoop (tree : gmap string (list string)) (fams : list string)
  (st : list string * gmap string (list string))
  : (list string * gmap string (list string)) * bool :=
  match fams with
  | [] => (st, false)
  | family :: rest =>
      let r := autoSelectFamily tree st family in
      if snd r then r else autoSelectLoop tree rest (fst r)
  end.

(** [autoSelectNew(component)]: with nothing selected and no entry at all,
    everything is selected and saved; otherwise what is new is added, and
    nothing is saved. *)
Definition autoSelectNew (c : Dashboard) : Outcome :=
  if Nat.eqb (length (selectedFamilies c)) 0 && Nat.eqb (size (selectedModels c)) 0
  then
    let r := selectTree (modelTree c) (families c) (selectedModels c, None) in
    let c1 := withSelection (families c) (fst (fst r)) c in
    {| component := if snd r then c1 else savePreferences c1;
       threw := snd r;
       newPrototype := snd (fst r) |}
  else
    let r := autoSelectLoop (modelTree c) (families c)
               (selectedFamilies c, selectedModels c) in
    {| component := withSelection (fst (fst r)) (snd (fst r)) c;
       threw := snd r;
       newPrototype := None |}.

(** *** The loops over ordinary family names

    What the two loops compute when no family is the name of an inherited
    property, so that every lookup is decided by the object's own
    properties (lemmas [selectTree_ordinary] and [autoSelectLoop_ordinary]). *)

Definition selectTreeOrdinary (tree : gmap string (list string)) (fams : list string)
  (models : gmap string (list string)) : gmap string (list string) :=
  fold_left (fun sm family => <[family := default [] (tree !! family)]> sm)
    fams models.

Definition autoSelectFamilyOrdinary (tree : gmap string (list string))
  (st : list string * gmap string (list string)) (family : string)
  : list string * gmap string (list string) :=
  (addIfMissing (fst st) family,
   <[family := fold_left addIfMissing (default [] (tree !! family))
                 (default [] (snd st !! family))]> (snd st)).

Definition autoSelectNewOrdinary (c : Dashboard) : Dashboard :=
  if Nat.eqb (length (selectedFamilies c)) 0 && Nat.eqb (size (selectedModels c)) 0
  then savePreferences
         (withSelection (families c)
            (selectTreeOrdinary (modelTree c) (families c) (selectedModels c)) c)
  else
    let st := fold_left (autoSelectFamilyOrdinary (modelTree c)) (families c)
                (selectedFamilies c, selectedModels c) in
    withSelection (fst st) (snd st) c.

(** The own entry of the family holds the model. *)
Definition hasModel (c : Dashboard) (family model : string) : bool :=
  match selectedModels c !! family with
  | Some models => arrayIncludes models model
  | None => false
  end.

(** [getTimeRangeCutoff(range)]; [now] is what [Date.now()] returns, [None]
    is null. *)
Definition getTimeRangeCutoff (now : Z) (range : string) : option Z :=
  if String.eqb range "1h" then Some (now - 1 * 60 * 60 * 1000)
  else if String.eqb range "6h" then Some (now - 6 * 60 * 60 * 1000)
  else if String.eqb range "24h" then Some (now - 24 * 60 * 60 * 1000)
  else if String.eqb range "7d" then Some (now - 7 * 24 * 60 * 60 * 1000)
  else None.

(** [timestamp >= cutoff], false for the [NaN] of a date that does not
    parse. *)
Definition notBefore (cutoff : Z) (timestamp : option Z) : bool :=
  match timestamp with
  | Some t => cutoff <=? t
  | None => false
  end.

(** [getFilteredHistoryData(component)] for the component's [historyData]
    ([None] when it is missing) and [timeRange].  The history object is the
    list of its entries in the order [Object.entries] yields them;
    [Date_getTime iso] is [new Date(iso).getTime()], [None] for [NaN].  A
    cutoff of [0] is as falsy as null. *)
Definition getFilteredHistoryData {H : Type} (Date_getTime : string -> option Z)
  (now : Z) (range : string) (history : option (list (string * H)))
  : list (string * H) :=
  match history with
  | None => []
  | Some [] => []
  | Some entries =>
      match getTimeRangeCutoff now range with
      | None => entries
      | Some cutoff =>
          if cutoff =? 0 then entries
          else List.filter (fun kv => notBefore cutoff (Date_getTime (fst kv))) entries
      end
  end.

(** The number that holds an integer: the nearest double, ties to the even
    significand.  Below [2^53] a significand of 53 bits holds every integer
    as it is. *)
Definition toDouble (z : Z) : Z :=
  let a := Z.abs z in
  if a <? 2 ^ 53 then z
  else
    let unit := 2 ^ (Z.log2 a - 52) in
    let q := a / unit in
    let r := a mod unit in
    let up := if 2 * r <? unit then false
              else if unit <? 2 * r then true else Z.odd q in
    Z.sgn z * ((if up then q + 1 else q) * unit).

(** [getModelColor(family, modelIndex)] over the palette [MODEL_COLORS], for
    an integer [modelIndex] (a number of the language, so a double):
    [baseIndex + modelIndex] is the double nearest to the sum, [%] is the
    exact remainder with the sign of the dividend, and an index that is
    [NaN] (empty palette) or negative reads [undefined], here [None]. *)
Definition getModelColor (MODEL_COLORS : list string) (family : string)
  (modelIndex : Z) : option string :=
  let baseIndex :=
    if String.eqb family "claude" then 0
    else if String.eqb family "gemini" then 4 else 8 in
  let len := Z.of_nat (length MODEL_COLORS) in
  if len =? 0 then None
  else
    let i := Z.rem (toDouble (baseIndex + modelIndex)) len in
    if i <? 0 then None else nth_error MODEL_COLORS (Z.to_nat i).

(** Everything the tree offers for [family] is selected in [st]: the family
    itself, and, in its entry, each of its models. *)
Definition covered (tree : gmap string (list string))
  (st : list string * gmap string (list string)) (family : string) : Prop :=
  In family (fst st) /\
  exists models, snd st !! family = Some models /\
    forall model, In model (default [] (tree !! family)) -> In model models.

(** ** The data store (getModelFamily) and the log buffer *)

(** A character of the ASCII range.  A string holds the bytes of its text;
    a character outside ASCII takes bytes outside this range. *)
Definition isAsciiChar (c : ascii) : bool :=
  match c with Ascii _ _ _ _ _ _ _ b7 => negb b7 end.

(** [getModelFamily(modelId)].  [String_toLowerCase] is the platform's
    [String.prototype.toLowerCase], which follows the Unicode case mapping;
    on ASCII text it turns the capitals A to Z into small letters and
    leaves the rest, as [toLowerCase] of this file does. *)
Definition getModelFamily (String_toLowerCase : string -> string)
  (modelId : string) : string :=
  let lower := String_toLowerCase modelId in
  if includes lower "claude" then "claude"
  else if includes lower "gemini" then "gemini"
  else "other".

(** The default visibility of a model on the models page:
    [isHidden = config.hidden; if (isHidden === undefined) isHidden =
    (family === 'other' || family === 'unknown')], with [config.hidden] a
    boolean or missing. *)
Definition isHiddenModel (String_toLowerCase : string -> string)
  (configHidden : option bool) (modelId : string) : bool :=
  match configHidden with
  | Some hidden => hidden
  | None =>
      let family := getModelFamily String_toLowerCase modelId in
      String.eqb family "other" || String.eqb family "unknown"
  end.

(** [logs.slice(-limit)]: the last [limit] entries for a positive [limit];
    [-0] is [0], so [slice(-0)] is the whole array. *)
Definition sliceLast {A : Type} (limit : nat) (logs : list A) : list A :=
  match limit with
  | O => logs
  | S _ => skipn (length logs - limit) logs
  end.

(** What the log stream's message handler does to the buffer:
    [logs.push(log); if (logs.length > limit) logs = logs.slice(-limit)]. *)
Definition pushLog {A : Type} (limit : nat) (logs : list A) (log : A) : list A :=
  let logs' := logs ++ [log] in
  if (limit <? length logs')%nat then sliceLast limit logs' else logs'.

(** ** The console logger of the web UI ([window.UILogger])

    The logger keeps one cached flag, [debugEnabled], and talks to the
    console, to [localStorage] and to the page's URL.  The record holds the
    flag and what the logger sees of the browser: the value of the URL's
    [debug] parameter, whether [localStorage] throws, the entry stored under
    [ag_debug], and the lines written to the console so far. *)

Inductive ConsoleMethod : Type :=
| ConsoleLog | ConsoleInfo | ConsoleWarn | ConsoleError.

Record Page : Type := {
  urlDebug : option string;
  localStorageThrows : bool;
  ag_debug : option string;
  debugEnabled : bool;
  console : list (ConsoleMethod * list string);
}.

(** [isDebugEnabled()]: the URL parameter first, then the stored entry; a
    throwing storage counts as no entry. *)
Definition isDebugEnabled (p : Page) : bool :=
  match urlDebug p with
  | Some v => if String.eqb v "true" then true
              else if localStorageThrows p then false
              else match ag_debug p with
                   | Some s => String.eqb s "true"
                   | None => false
                   end
  | None => if localStorageThrows p then false
            else match ag_debug p with
                 | Some s => String.eqb s "true"
                 | None => false
                 end
  end.

Definition writeConsole (m : ConsoleMethod) (args : list string) (p : Page) : Page :=
  {| urlDebug := urlDebug p; localStorageThrows := localStorageThrows p;
     ag_debug := ag_debug p; debugEnabled := debugEnabled p;
     console := console p ++ [(m, args)] |}.

Definition setDebug (stored : option string) (flag : bool) (p : Page) : Page :=
  {| urlDebug := urlDebug p; localStorageThrows := localStorageThrows p;
     ag_debug := stored; debugEnabled := flag; console := console p |}.

(** [refresh()] *)
Definition refresh (p : Page) : Page :=
  setDebug (ag_debug p) (isDebugEnabled p) p.

(** [enableDebug()]: when [setItem] throws, the flag is not set and a
    warning is written instead. *)
Definition enableDebug (p : Page) : Page :=
  if localStorageThrows p
  then writeConsole ConsoleWarn ["[UILogger] Could not save debug preference"] p
  else writeConsole ConsoleInfo
         ["[UILogger] Debug mode enabled. Refresh page to see all logs."]
         (setDebug (Some "true") true p).

(** [disableDebug()]: when [removeItem] throws, nothing happens. *)
Definition disableDebug (p : Page) : Page :=
  if localStorageThrows p then p
  else writeConsole ConsoleInfo ["[UILogger] Debug mode disabled."]
         (setDebug None false p).

(** [isDebug()] *)
Definition isDebug (p : Page) : bool := debugEnabled p.

(** The logging methods: [debug], [info], [log] and [warn] write only when
    the flag is set; [warnAlways] and [error] write. *)
Inductive LogMethod : Type :=
| MDebug | MInfo | MLog | MWarn | MWarnAlways | MError.

Definition logWith (m : LogMethod) (args : list string) (p : Page) : Page :=
  match m with
  | MDebug => if debugEnabled p then writeConsole ConsoleLog ("[DEBUG]" :: args) p else p
  | MInfo => if debugEnabled p then writeConsole ConsoleInfo ("[INFO]" :: args) p else p
  | MLog => if debugEnabled p then writeConsole ConsoleLog args p else p
  | MWarn => if debugEnabled p then writeConsole ConsoleWarn args p else p
  | MWarnAlways => writeConsole ConsoleWarn args p
  | MError => writeConsole ConsoleError args p
  end.

Definition logAll (p : Page) (calls : list (LogMethod * list string)) : Page :=
  fold_left (fun p c => logWith (fst c) (snd c) p) calls p.

(** The console line of a call that writes although the flag is off. *)
Definition loudLine (c : LogMethod * list string)
  : list (ConsoleMethod * list string) :=
  match fst c with
  | MWarnAlways => [(ConsoleWarn, snd c)]
  | MError => [(ConsoleError, snd c)]
  | _ => []
  end.

(** * Properties of the pool manager *)

Section PoolLemmas.

Lemma strict_ne_true (a b : JsValue) : strict_ne a b = true <-> a <> b.
Proof.
  unfold strict_ne. rewrite negb_true_iff, bool_decide_eq_false. reflexivity.
Qed.

Lemma strict_ne_false (a b : JsValue) : strict_ne a b = false <-> a = b.
Proof.
  unfold strict_ne. rewrite negb_false_iff, bool_decide_eq_true. reflexivity.
Qed.

Lemma has_email_true (e : string) (a : Account) :
  has_email e a = true <-> email a = e.
Proof. unfold has_email. apply String.eqb_eq. Qed.

Lemma find_has_email_None (e : string) (l : list Account) :
  List.find (has_email e) l = None <-> forall a, In a l -> email a <> e.
Proof.
  split.
  - intros Hnone a Hin Heq.
    pose proof (find_none _ _ Hnone a Hin) as Hf.
    apply has_email_true in Heq. congruence.
  - induction l as [|b t IH]; intros Hall; simpl; [reflexivity|].
    destruct (has_email e b) eqn:Hb.
    + apply has_email_true in Hb. exfalso. apply (Hall b); [now left | exact Hb].
    + apply IH. intros a Ha. apply Hall. now right.
Qed.

Variables (p : Account -> bool) (f : Account -> Account).

Lemma update_found_None (l : list Account) :
  List.find p l = None -> update_found p f l = l.
Proof.
  induction l as [|b t IH]; simpl; [reflexivity|].
  destruct (p b); [discriminate|]. intros H. now rewrite IH.
Qed.

(** [find] points at an index, nothing before it matches, and the update
    writes there and nowhere else. *)
Lemma update_found_insert (l : list Account) (a : Account) :
  List.find p l = Some a ->
  exists i : nat,
    l !! i = Some a /\
    (forall (j : nat) b, (j < i)%nat -> l !! j = Some b -> p b = false) /\
    update_found p f l = <[i := f a]> l.
Proof.
  induction l as [|b t IH]; simpl; [discriminate|].
  destruct (p b) eqn:Hb.
  - intros [= ->]. exists 0%nat.
    split; [reflexivity | split; [|reflexivity]].
    intros j c Hj. lia.
  - intros Hfind. destruct (IH Hfind) as (i & Hi & Hbefore & Hupd).
    exists (S i). split; [exact Hi | split].
    + intros [|j] c Hj Hc; simpl in Hc.
      * now injection Hc as <-.
      * apply (Hbefore j); [lia | exact Hc].
    + simpl. now rewrite Hupd.
Qed.

Lemma find_update_found (l : list Account) (a : Account) :
  List.find p l = Some a -> p (f a) = true ->
  List.find p (update_found p f l) = Some (f a).
Proof.
  induction l as [|b t IH]; simpl; [discriminate|].
  destruct (p b) eqn:Hb.
  - intros [= ->] Hfa. simpl. now rewrite Hfa.
  - intros Hfind Hfa. simpl. rewrite Hb. now apply IH.
Qed.

Lemma Forall_update_found (Q : Account -> Prop) (l : list Account) :
  (forall a, Q a -> Q (f a)) -> Forall Q l -> Forall Q (update_found p f l).
Proof.
  intros Hf. induction 1 as [|b t Hb Ht IH]; simpl; [constructor|].
  destruct (p b); constructor; auto.
Qed.

End PoolLemmas.

Lemma update_found_twice (p : Account -> bool) (f g : Account -> Account)
  (l : list Account) :
  (forall a, p a = true -> p (f a) = true) ->
  update_found p g (update_found p f l) = update_found p (fun a => g (f a)) l.
Proof.
  intros Hp. induction l as [|b t IH]; simpl; [reflexivity|].
  destruct (p b) eqn:Hb; simpl.
  - now rewrite (Hp b Hb).
  - now rewrite Hb, IH.
Qed.

Lemma has_email_set_invalid e reason url now a :
  has_email e (set_invalid reason url now a) = has_email e a.
Proof. reflexivity. Qed.

Lemma has_email_reset_invalid e a :
  has_email e (reset_invalid a) = has_email e a.
Proof. reflexivity. Qed.

Lemma List_filter_filter (l : list Account) :
  List.filter
    (fun a => negb (isInvalid a) && strict_ne (enabled a) (JsBool false)) l
  = filter selectable l.
Proof.
  induction l as [|a t IH]; [reflexivity|].
  simpl. rewrite filter_cons. rewrite IH.
  destruct (decide (selectable a)) as [[He Hi]|Hn].
  - apply strict_ne_true in He. now rewrite Hi, He.
  - destruct (isInvalid a) eqn:Hi; simpl; [reflexivity|].
    destruct (strict_ne (enabled a) (JsBool false)) eqn:He; [|reflexivity].
    exfalso. apply Hn. split; [now apply strict_ne_true | exact Hi].
Qed.

(** ** getAvailableAccounts *)

(** C1, as the specification words it, fails: an account inside a rate-limit
    window for the requested model is still returned.  At time 1000 the only
    account of [pool_limited] is limited for gemini-pro until 2000, and
    [getAvailableAccounts("gemini-pro")] returns it. *)
Lemma getAvailableAccounts_ignores_rate_limits :
  ~ getAvailableAccounts_as_specified pool_limited 1000 "gemini-pro".
Proof.
  intros Hspec.
  destruct (Hspec limited_account) as [Hreturned _].
  assert (Hin : In limited_account (getAvailableAccounts pool_limited "gemini-pro"))
    by (vm_compute; now left).
  destruct (Hreturned Hin) as (_ & _ & _ & Hfree).
  apply Hfree. exists {| resetAt := 2000 |}. split; [reflexivity | simpl; lia].
Qed.

(** C1 (amended): [getAvailableAccounts(model)] returns exactly the accounts
    with [enabled !== false] and [isInvalid] false, in pool order; neither
    the model asked for nor the rate-limit windows the accounts carry change
    which accounts are returned. *)
Theorem getAvailableAccounts_selectable (this : MockAccountManager) (model : string) :
  getAvailableAccounts this model = filter selectable (_accounts this)
  /\ sublist (getAvailableAccounts this model) (_accounts this)
  /\ (forall a, In a (getAvailableAccounts this model) <->
                In a (_accounts this) /\ enabled a <> JsBool false /\ isInvalid a = false)
  /\ (forall model', getAvailableAccounts this model' = getAvailableAccounts this model)
  /\ (forall limits : Account -> gmap string RateLimit,
        getAvailableAccounts
          {| _accounts := map (fun a => withRateLimits (limits a) a) (_accounts this);
             _log := _log this; _savedToDisk := _savedToDisk this |} model
        = map (fun a => withRateLimits (limits a) a)
              (getAvailableAccounts this model)).
Proof.
  unfold getAvailableAccounts.
  split; [apply List_filter_filter|].
  split; [rewrite List_filter_filter; apply sublist_filter|].
  split.
  - intros a. rewrite filter_In, andb_true_iff, negb_true_iff, strict_ne_true.
    tauto.
  - split; [reflexivity|].
    intros limits. simpl.
    induction (_accounts this) as [|a t IH]; [reflexivity|].
    simpl. rewrite IH.
    now destruct (negb (isInvalid a) && strict_ne (enabled a) (JsBool false)).
Qed.

(** ** isAllAccountsInvalid *)

Lemma all_invalid_iff (l : list Account) :
  (0 <? Z.of_nat (length (List.filter (fun a => strict_ne (enabled a) (JsBool false)) l)))
  && forallb (fun a => isInvalid a)
       (List.filter (fun a => strict_ne (enabled a) (JsBool false)) l) = true <->
  (exists a, In a l /\ enabled a <> JsBool false) /\
  (forall a, In a l -> enabled a <> JsBool false -> isInvalid a = true).
Proof.
  rewrite andb_true_iff, Z.ltb_lt, forallb_forall. split.
  - intros [Hlen Hall]. split.
    + destruct (List.filter _ l) as [|a t] eqn:Hf; [simpl in Hlen; lia|].
      assert (Ha : In a (List.filter (fun a => strict_ne (enabled a) (JsBool false)) l))
        by (rewrite Hf; now left).
      apply filter_In in Ha as [Ha He]. exists a. split; [exact Ha|].
      now apply strict_ne_true.
    + intros a Ha He. apply Hall. apply filter_In. split; [exact Ha|].
      now apply strict_ne_true.
  - intros [(a & Ha & He) Hall]. split.
    + assert (Hin : In a (List.filter (fun a => strict_ne (enabled a) (JsBool false)) l)).
      { apply filter_In. split; [exact Ha | now apply strict_ne_true]. }
      destruct (List.filter _ l); [destruct Hin | simpl; lia].
    + intros b Hb. apply filter_In in Hb as [Hb He'].
      apply Hall; [exact Hb | now apply strict_ne_true].
Qed.

(** C2: [isAllAccountsInvalid()] is true exactly when some account is enabled
    and every enabled account is invalid; it is false when no account is
    enabled; and a disabled account, wherever it sits in the pool, does not
    change the verdict. *)
Theorem isAllAccountsInvalid_iff (this : MockAccountManager) :
  (isAllAccountsInvalid this = true <->
     (exists a, In a (_accounts this) /\ enabled a <> JsBool false) /\
     (forall a, In a (_accounts this) -> enabled a <> JsBool false ->
                isInvalid a = true))
  /\ ((forall a, In a (_accounts this) -> enabled a = JsBool false) ->
      isAllAccountsInvalid this = false)
  /\ (forall before after d,
        _accounts this = before ++ d :: after -> enabled d = JsBool false ->
        isAllAccountsInvalid this =
        isAllAccountsInvalid {| _accounts := before ++ after;
                                _log := _log this;
                                _savedToDisk := _savedToDisk this |}).
Proof.
  unfold isAllAccountsInvalid. cbv zeta. split; [apply all_invalid_iff|]. split.
  - intros Hdis. apply not_true_is_false. intros Htrue.
    apply all_invalid_iff in Htrue as [(a & Ha & He) _]. apply He. now apply Hdis.
  - intros before after d Heq Hd. simpl. rewrite Heq.
    rewrite !List.filter_app. simpl.
    apply strict_ne_false in Hd. now rewrite Hd.
Qed.

(** C2, at the pool of the test suite: one account disabled, the other
    invalid. *)
Lemma isAllAccountsInvalid_iff_witness :
  isAllAccountsInvalid
    {| _accounts :=
         [ {| email := "a@test.com"; isInvalid := true;
              invalidReason := JsString "Account requires verification";
              verifyUrl := JsNull; invalidAt := JsNumber 1000;
              modelRateLimits := ∅; consecutiveFailures := 0;
              enabled := JsBool true |};
           {| email := "b@test.com"; isInvalid := false;
              invalidReason := JsNull; verifyUrl := JsNull;
              invalidAt := JsUndefined; modelRateLimits := ∅;
              consecutiveFailures := 0; enabled := JsBool false |} ];
       _log := []; _savedToDisk := 0 |} = true.
Proof.
  apply (proj1 (isAllAccountsInvalid_iff _)). split.
  - eexists. split; [left; reflexivity | discriminate].
  - intros a [<- | [<- | []]] He; [reflexivity | now destruct He].
Defined.

(** ** markInvalid and clearInvalid *)

Lemma markInvalid_found this now e reason url acc :
  findAccount this e = Some acc ->
  markInvalid this now e reason url =
  (true,
   {| _accounts :=
        update_found (has_email e)
          (set_invalid reason (default_param url JsNull) now) (_accounts this);
      _log := _log this ++ [LogMarkInvalid e reason (default_param url JsNull)];
      _savedToDisk := _savedToDisk this |}).
Proof. unfold findAccount, markInvalid. now intros ->. Qed.

Lemma clearInvalid_found this e acc :
  findAccount this e = Some acc ->
  clearInvalid this e =
  (true,
   {| _accounts := update_found (has_email e) reset_invalid (_accounts this);
      _log := _log this ++ [LogClearInvalid e];
      _savedToDisk := _savedToDisk this + 1 |}).
Proof. unfold findAccount, clearInvalid. now intros ->. Qed.

Lemma findAccount_markInvalid this now e reason url acc :
  findAccount this e = Some acc ->
  findAccount (snd (markInvalid this now e reason url)) e =
  Some (set_invalid reason (default_param url JsNull) now acc).
Proof.
  intros Hfind. rewrite (markInvalid_found _ _ _ _ _ _ Hfind). simpl.
  unfold findAccount in *. simpl.
  apply find_update_found; [exact Hfind|].
  rewrite has_email_set_invalid.
  now apply find_some in Hfind.
Qed.

(** C4, as the specification words it, fails: [clearInvalid] does not write
    [invalidAt].  After [markInvalid] at time 1000 and [clearInvalid], the
    account still carries [invalidAt = 1000]. *)
Lemma clearInvalid_keeps_invalidAt :
  ~ roundTrip_as_specified pool_ab 1000 "a@test.com"
      (JsString "Account requires verification")
      (JsString "https://accounts.google.com/signin/continue?sarp=1").
Proof.
  intros (acc & Hfind & _ & _ & _ & Hat).
  vm_compute in Hfind. injection Hfind as <-. discriminate Hat.
Qed.

(** C4 (amended): for an email present in the pool, both calls return true,
    and [markInvalid(email, reason, url)] followed by [clearInvalid(email)]
    leaves the account found for that email with [isInvalid = false],
    [invalidReason = null] and [verifyUrl = null]; [invalidAt] is not
    cleared and holds the time of the [markInvalid] call.  The account keeps
    its place and its other fields, and no other account changes. *)
Theorem markInvalid_clearInvalid_round_trip
  (this : MockAccountManager) (now : Z) (e : string) (reason url : JsValue)
  (acc : Account) :
  findAccount this e = Some acc ->
  let cleared :=
    {| email := email acc; isInvalid := false; invalidReason := JsNull;
       verifyUrl := JsNull; invalidAt := JsNumber now;
       modelRateLimits := modelRateLimits acc;
       consecutiveFailures := consecutiveFailures acc;
       enabled := enabled acc |} in
  fst (markInvalid this now e reason url) = true
  /\ fst (clearInvalid (snd (markInvalid this now e reason url)) e) = true
  /\ findAccount (roundTrip this now e reason url) e = Some cleared
  /\ exists i : nat,
       _accounts this !! i = Some acc
       /\ (forall (j : nat) b, (j < i)%nat -> _accounts this !! j = Some b -> email b <> e)
       /\ _accounts (roundTrip this now e reason url) = <[i := cleared]> (_accounts this).
Proof.
  intros Hfind cleared.
  pose proof (findAccount_markInvalid this now e reason url acc Hfind) as Hmid.
  assert (Hacc : _accounts (roundTrip this now e reason url) =
                 update_found (has_email e)
                   (fun a => reset_invalid
                      (set_invalid reason (default_param url JsNull) now a))
                   (_accounts this)).
  { unfold roundTrip. rewrite (clearInvalid_found _ _ _ Hmid).
    rewrite (markInvalid_found _ _ _ _ _ _ Hfind). simpl.
    apply update_found_twice. intros a Ha. now rewrite has_email_set_invalid. }
  split; [now rewrite (markInvalid_found _ _ _ _ _ _ Hfind)|].
  split; [now rewrite (clearInvalid_found _ _ _ Hmid)|].
  split.
  - unfold findAccount at 1. rewrite Hacc.
    apply (find_update_found (has_email e)
             (fun a => reset_invalid
                (set_invalid reason (default_param url JsNull) now a))
             (_accounts this) acc Hfind).
    now apply find_some in Hfind.
  - destruct (update_found_insert (has_email e)
             (fun a => reset_invalid
                (set_invalid reason (default_param url JsNull) now a))
             (_accounts this) acc Hfind) as (i & Hi & Hbefore & Hupd).
    exists i. split; [exact Hi|]. split.
    + intros j b Hj Hb Heq. apply has_email_true in Heq.
      rewrite (Hbefore j b Hj Hb) in Heq. discriminate.
    + now rewrite Hacc, Hupd.
Qed.

(** C4 (amended), on the first account of the two-account pool. *)
Lemma markInvalid_clearInvalid_round_trip_witness :
  findAccount
    (roundTrip pool_ab 1000 "a@test.com" (JsString "Account requires verification")
       (JsString "https://accounts.google.com/signin/continue?sarp=1"))
    "a@test.com"
  = Some {| email := "a@test.com"; isInvalid := false; invalidReason := JsNull;
            verifyUrl := JsNull; invalidAt := JsNumber 1000;
            modelRateLimits := ∅; consecutiveFailures := 0;
            enabled := JsBool true |}.
Proof.
  exact (proj1 (proj2 (proj2
    (markInvalid_clearInvalid_round_trip pool_ab 1000 "a@test.com"
       (JsString "Account requires verification")
       (JsString "https://accounts.google.com/signin/continue?sarp=1")
       {| email := "a@test.com"; isInvalid := false; invalidReason := JsNull;
          verifyUrl := JsNull; invalidAt := JsUndefined;
          modelRateLimits := ∅; consecutiveFailures := 0;
          enabled := JsBool true |}
       eq_refl)))).
Defined.

(** C8: for an email that no account of the pool has, [markInvalid] and
    [clearInvalid] return false and hand back the manager as it was:
    accounts, log and save counter unchanged. *)
Theorem mutators_unknown_email
  (this : MockAccountManager) (now : Z) (e : string) (reason url : JsValue) :
  (forall a, In a (_accounts this) -> email a <> e) ->
  markInvalid this now e reason url = (false, this)
  /\ clearInvalid this e = (false, this).
Proof.
  intros Hunknown. apply find_has_email_None in Hunknown.
  unfold markInvalid, clearInvalid. now rewrite Hunknown.
Qed.

(** C8, at the call of the test suite: an unknown email on the two-account
    pool. *)
Lemma mutators_unknown_email_witness :
  markInvalid pool_ab 1000 "unknown@example.com" (JsString "Test") JsUndefined
    = (false, pool_ab)
  /\ clearInvalid pool_ab "unknown@example.com" = (false, pool_ab).
Proof.
  apply mutators_unknown_email.
  intros a [<- | [<- | []]]; discriminate.
Defined.

(** ** markRateLimited *)

(** C9, as the specification words it, fails: [markRateLimited] writes no
    window.  After [markRateLimited("a@test.com", 60000, "gemini-pro")] the
    account has no entry for gemini-pro. *)
Lemma markRateLimited_writes_no_window :
  ~ markRateLimited_as_specified pool_ab "a@test.com" 60000 "gemini-pro".
Proof.
  intros Hspec.
  destruct (Hspec _ eq_refl) as (acc' & Hfind & Hwindow & _).
  vm_compute in Hfind. injection Hfind as <-. discriminate Hwindow.
Qed.

(** C9 (amended): [markRateLimited(email, resetAtMs, model)] appends the call
    to the log and changes nothing else: every account, with its [isInvalid]
    flag and its [modelRateLimits], is as before, whether or not the email is
    in the pool. *)
Theorem markRateLimited_only_logs
  (this : MockAccountManager) (e : string) (resetAtMs : Z) (model : string) :
  _accounts (markRateLimited this e resetAtMs model) = _accounts this
  /\ _log (markRateLimited this e resetAtMs model) =
     _log this ++ [LogMarkRateLimited e resetAtMs model]
  /\ _savedToDisk (markRateLimited this e resetAtMs model) = _savedToDisk this
  /\ findAccount (markRateLimited this e resetAtMs model) e = findAccount this e
  /\ (forall e' m, getAvailableAccounts (markRateLimited this e resetAtMs model) m
                   = getAvailableAccounts this m /\
                   findAccount (markRateLimited this e resetAtMs model) e'
                   = findAccount this e').
Proof. repeat split. Qed.

(** ** The stored verification url *)

Lemma truthy_false_js_or (v : JsValue) :
  truthy v = false -> js_or v JsNull = JsNull.
Proof. unfold js_or. now intros ->. Qed.

Lemma truthy_default_param (v : JsValue) :
  truthy (default_param v JsNull) = truthy v.
Proof. now destruct v. Qed.

Lemma js_or_null_or_truthy (v : JsValue) :
  js_or v JsNull = JsNull \/ truthy (js_or v JsNull) = true.
Proof. unfold js_or. destruct (truthy v) eqn:Hv; [right; exact Hv | now left]. Qed.

Lemma js_or_nullOrUrl (v : JsValue) :
  v = JsUndefined \/ v = JsNull \/ (exists s, v = JsString s) ->
  nullOrUrl (js_or (default_param v JsNull) JsNull).
Proof.
  intros [-> | [-> | [s ->]]]; [now left | now left |].
  destruct s as [|c s]; [now left|].
  right. exists (String c s). split; [reflexivity | discriminate].
Qed.

(** A property [Q] of single accounts that the assignments of
    [clearInvalid], and those of [markInvalid] with this call's arguments,
    keep, is kept by the call. *)
Lemma call_preserves (Q : Account -> Prop) (this : MockAccountManager) (c : Call) :
  (forall a, Q a -> Q (reset_invalid a)) ->
  (forall now e reason url a,
     c = CallMarkInvalid now e reason url ->
     Q a -> Q (set_invalid reason (default_param url JsNull) now a)) ->
  Forall Q (_accounts this) -> Forall Q (_accounts (call this c)).
Proof.
  intros Hreset Hset Hall.
  destruct c as [now e reason url|e| | | | |]; simpl; try exact Hall.
  - unfold markInvalid. destruct (List.find _ _); simpl; [|exact Hall].
    apply Forall_update_found; [|exact Hall].
    intros b. now apply (Hset now e reason url).
  - unfold clearInvalid. destruct (List.find _ _); simpl; [|exact Hall].
    apply Forall_update_found; [|exact Hall]. exact Hreset.
Qed.

Lemma calls_preserve (Q : Account -> Prop) (cs : list Call) :
  (forall a, Q a -> Q (reset_invalid a)) ->
  (forall now e reason url a,
     In (CallMarkInvalid now e reason url) cs ->
     Q a -> Q (set_invalid reason (default_param url JsNull) now a)) ->
  forall this, Forall Q (_accounts this) -> Forall Q (_accounts (calls this cs)).
Proof.
  intros Hreset. unfold calls.
  induction cs as [|c cs IH]; intros Hset this Hall; simpl; [exact Hall|].
  apply IH.
  - intros now e reason url a Hin. apply (Hset now e). now right.
  - apply call_preserves; [exact Hreset | | exact Hall].
    intros now e reason url a ->. apply (Hset now e). now left.
Qed.

(** C10: [markInvalid] stores null as the verification url whenever the
    argument is falsy (omitted, null, the empty string, ...); and in every
    state the manager reaches from its constructor, no account holds the
    empty string as its verification url: the field is null or truthy, and,
    when every call passed a string, null or nothing for it, it is null or a
    string that is not empty. *)
Theorem verifyUrl_null_or_nonempty :
  (forall this now e reason url acc,
     findAccount this e = Some acc -> truthy url = false ->
     exists acc',
       findAccount (snd (markInvalid this now e reason url)) e = Some acc'
       /\ verifyUrl acc' = JsNull)
  /\ truthy JsUndefined = false /\ truthy JsNull = false
  /\ truthy (JsString EmptyString) = false
  /\ (forall accounts cs a,
        In a (_accounts (calls (constructor accounts) cs)) ->
        verifyUrl a <> JsString EmptyString
        /\ (verifyUrl a = JsNull \/ truthy (verifyUrl a) = true))
  /\ (forall accounts cs a,
        Forall urlTyped cs ->
        In a (_accounts (calls (constructor accounts) cs)) ->
        nullOrUrl (verifyUrl a)).
Proof.
  split; [|split; [reflexivity | split; [reflexivity | split; [reflexivity|split]]]].
  - intros this now e reason url acc Hfind Hfalsy.
    eexists. split; [apply (findAccount_markInvalid _ _ _ _ _ _ Hfind)|].
    simpl. apply truthy_false_js_or. now rewrite truthy_default_param.
  - intros accounts cs a Hin.
    assert (Hinv : Forall (fun a => verifyUrl a = JsNull \/ truthy (verifyUrl a) = true)
                     (_accounts (calls (constructor accounts) cs))).
    { apply calls_preserve.
      - intros b _. now left.
      - intros now e reason url b _ _. simpl. apply js_or_null_or_truthy.
      - simpl. apply List.Forall_forall. intros b Hb.
        apply in_map_iff in Hb as (b0 & <- & _). now left. }
    rewrite List.Forall_forall in Hinv. specialize (Hinv a Hin).
    split; [|exact Hinv].
    intros Heq. rewrite Heq in Hinv. now destruct Hinv.
  - intros accounts cs a Htyped Hin.
    assert (Hinv : Forall (fun a => nullOrUrl (verifyUrl a))
                     (_accounts (calls (constructor accounts) cs))).
    { apply calls_preserve.
      - intros b _. now left.
      - intros now e reason url b Hc _. simpl. apply js_or_nullOrUrl.
        rewrite List.Forall_forall in Htyped. exact (Htyped _ Hc).
      - simpl. apply List.Forall_forall. intros b Hb.
        apply in_map_iff in Hb as (b0 & <- & _). now left. }
    rewrite List.Forall_forall in Hinv. exact (Hinv a Hin).
Qed.

(** C10, at the call of the test suite that passes the empty string. *)
Lemma verifyUrl_null_or_nonempty_witness :
  exists acc',
    findAccount
      (snd (markInvalid pool_ab 1000 "a@test.com" (JsString "Token revoked")
              (JsString EmptyString))) "a@test.com" = Some acc'
    /\ verifyUrl acc' = JsNull.
Proof.
  apply (proj1 verifyUrl_null_or_nonempty pool_ab 1000 "a@test.com"
           (JsString "Token revoked") (JsString EmptyString)
           {| email := "a@test.com"; isInvalid := false; invalidReason := JsNull;
              verifyUrl := JsNull; invalidAt := JsUndefined;
              modelRateLimits := ∅; consecutiveFailures := 0;
              enabled := JsBool true |}); reflexivity.
Defined.

(** * Properties of the error classifier *)

(** ** Strings *)

#[local] Arguments String.append : simpl nomatch.



Lemma map_chars_append (f : ascii -> ascii) (a b : string) :
  map_chars f (a +:+ b) = map_chars f a +:+ map_chars f b.
Proof. induction a as [|x a IH]; simpl; [reflexivity | now rewrite IH]. Qed.

(** A split of the image of [s] comes from a split of [s]. *)
Lemma map_chars_split (f : ascii -> ascii) (s a b : string) :
  map_chars f s = a +:+ b ->
  exists s1 s2, s = s1 +:+ s2 /\ map_chars f s1 = a /\ map_chars f s2 = b.
Proof.
  revert s. induction a as [|x a IH]; intros s Heq; simpl in Heq.
  - exists EmptyString, s. now split.
  - destruct s as [|y s]; [discriminate|]. simpl in Heq.
    injection Heq as Hx Hrest.
    destruct (IH s Hrest) as (s1 & s2 & -> & H1 & H2).
    exists (String y s1), s2. simpl. now rewrite Hx, H1.
Qed.

Lemma startsWith_iff (s p : string) :
  startsWith s p = true <-> exists post, s = p +:+ post.
Proof.
  revert s. induction p as [|b p IH]; intros s; simpl.
  - split; [intros _; now exists s | reflexivity].
  - destruct s as [|a s].
    + split; [discriminate | intros [post Hpost]; discriminate].
    + rewrite andb_true_iff, Ascii.eqb_eq, IH. split.
      * intros [-> [post ->]]. now exists post.
      * intros [post Hpost]. injection Hpost as -> ->. split; [reflexivity|].
        now exists post.
Qed.

Lemma includes_iff (s sub : string) : includes s sub = true <-> occurs sub s.
Proof.
  unfold occurs. induction s as [|a s IH]; simpl;
    rewrite orb_true_iff, startsWith_iff.
  - split.
    + intros [[post Hpost] | Hfalse]; [|discriminate]. now exists EmptyString, post.
    + intros (pre & post & Heq). left.
      destruct pre; [now exists post | discriminate].
  - rewrite IH. split.
    + intros [[post Hpost] | (pre & post & ->)].
      * now exists EmptyString, post.
      * now exists (String a pre), post.
    + intros ([|x pre] & post & Heq); simpl in Heq.
      * left. now exists post.
      * right. injection Heq as -> ->. now exists pre, post.
Qed.

(** Searching the folded text for a marker finds the pieces of the text
    that fold to the marker. *)
Lemma includes_map_chars (f : ascii -> ascii) (s m : string) :
  includes (map_chars f s) m = true <->
  exists pre mid post, s = pre +:+ mid +:+ post /\ map_chars f mid = m.
Proof.
  rewrite includes_iff. unfold occurs. split.
  - intros (a & b & Heq).
    apply map_chars_split in Heq as (pre & rest & -> & _ & Hrest).
    apply map_chars_split in Hrest as (mid & post & -> & Hmid & _).
    now exists pre, mid, post.
  - intros (pre & mid & post & -> & <-).
    exists (map_chars f pre), (map_chars f post).
    now rewrite !map_chars_append.
Qed.

Lemma lower_upper_char (c : ascii) : lower_char (upper_char c) = lower_char c.
Proof.
  destruct c as [[] [] [] [] [] [] [] []]; reflexivity.
Qed.

Lemma upper_lower_char (c : ascii) : upper_char (lower_char c) = upper_char c.
Proof.
  destruct c as [[] [] [] [] [] [] [] []]; reflexivity.
Qed.

Lemma toLowerCase_toUpperCase (s : string) :
  toLowerCase (toUpperCase s) = toLowerCase s.
Proof.
  induction s as [|c s IH]; simpl; [reflexivity|].
  unfold toLowerCase, toUpperCase in *. simpl. now rewrite lower_upper_char, IH.
Qed.

Lemma toUpperCase_toLowerCase (s : string) :
  toUpperCase (toLowerCase s) = toUpperCase s.
Proof.
  induction s as [|c s IH]; simpl; [reflexivity|].
  unfold toLowerCase, toUpperCase in *. simpl. now rewrite upper_lower_char, IH.
Qed.

(** Searching the lower-cased text for a lower-case marker is searching the
    text for the marker in any letter case. *)
Lemma includes_toLowerCase (s m m' : string) :
  toLowerCase m' = m ->
  includes (toLowerCase s) m = true <-> occurs_any_case m' s.
Proof.
  intros <-. unfold toLowerCase at 1. rewrite includes_map_chars. reflexivity.
Qed.

Lemma includes_toUpperCase (s m : string) :
  toUpperCase m = m ->
  includes (toUpperCase s) m = true <-> occurs_any_case m s.
Proof.
  intros Hm. unfold toUpperCase at 1. rewrite includes_map_chars.
  unfold occurs_any_case. split.
  - intros (pre & mid & post & -> & Hmid). exists pre, mid, post.
    split; [reflexivity|].
    rewrite <- (toLowerCase_toUpperCase mid). unfold toUpperCase. now rewrite Hmid.
  - intros (pre & mid & post & -> & Hmid). exists pre, mid, post.
    split; [reflexivity|].
    change (toUpperCase mid = m).
    now rewrite <- (toUpperCase_toLowerCase mid), Hmid, toUpperCase_toLowerCase.
Qed.

(** ** isValidationRequired *)

(** C3: a body is classified validation-required exactly when it contains
    VALIDATION_REQUIRED, ACCOUNT_DISABLED or USER_DISABLED in some letter
    case, wherever in the text the marker stands; a body without such a
    marker, and so the generic 403 bodies that only say Forbidden, Permission
    denied or Access denied, is not; neither is null. *)
Theorem isValidationRequired_markers :
  (forall body : string,
     isValidationRequired (Some body) = true <->
       occurs_any_case "VALIDATION_REQUIRED" body \/
       occurs_any_case "ACCOUNT_DISABLED" body \/
       occurs_any_case "USER_DISABLED" body)
  /\ isValidationRequired None = false
  /\ isValidationRequired
       (Some (quoted "{`error`:{`code`:403,`message`:`Forbidden: some generic error`}}"))
     = false
  /\ isValidationRequired
       (Some (quoted "{`error`:{`code`:403,`message`:`Request had insufficient authentication scopes.`,`status`:`PERMISSION_DENIED`}}"))
     = false
  /\ isValidationRequired
       (Some (quoted "{`error`:{`code`:403,`message`:`Access denied for this account`}}"))
     = false.
Proof.
  split; [|repeat split].
  intros body. unfold isValidationRequired, validationMarkers. simpl.
  rewrite !orb_true_iff.
  rewrite (includes_toLowerCase body "validation_required" "VALIDATION_REQUIRED" eq_refl).
  rewrite (includes_toLowerCase body "account_disabled" "ACCOUNT_DISABLED" eq_refl).
  rewrite (includes_toLowerCase body "user_disabled" "USER_DISABLED" eq_refl).
  intuition discriminate.
Qed.

(** C3, on the structured payload of the test suite: the marker stands in
    the reason field of an error detail. *)
Lemma isValidationRequired_markers_witness :
  isValidationRequired
    (Some (quoted "{`error`:{`code`:403,`message`:`Request had insufficient authentication scopes.`,`status`:`PERMISSION_DENIED`,`details`:[{`@type`:`type.googleapis.com/google.rpc.ErrorInfo`,`reason`:`VALIDATION_REQUIRED`,`domain`:`googleapis.com`}]}}"))
  = true.
Proof.
  apply (proj1 isValidationRequired_markers). left.
  exists (quoted "{`error`:{`code`:403,`message`:`Request had insufficient authentication scopes.`,`status`:`PERMISSION_DENIED`,`details`:[{`@type`:`type.googleapis.com/google.rpc.ErrorInfo`,`reason`:`"),
    "VALIDATION_REQUIRED",
    (quoted "`,`domain`:`googleapis.com`}]}}").
  split; reflexivity.
Defined.

(** The mixed-case texts of the handler test. *)
Example isValidationRequired_mixed_case :
  isValidationRequired (Some "Validation_Required") = true
  /\ isValidationRequired (Some "ACCOUNT_DISABLED") = true
  /\ isValidationRequired (Some "User_Disabled") = true
  /\ isValidationRequired (Some "user_disabled: This account has been suspended") = true
  /\ isValidationRequired (Some EmptyString) = false.
Proof. repeat split. Qed.

(** ** isAccountForbiddenError *)

(** C7: an error is classified account-forbidden exactly when it was
    constructed as [AccountForbiddenError] or its message carries
    ACCOUNT_FORBIDDEN; every [AccountForbiddenError] is; plain errors that
    only speak of 403, forbidden, permission denied or validation required,
    rate-limit errors, auth errors and generic errors are not. *)
Theorem isAccountForbiddenError_only_explicit :
  (forall error : ErrorValue,
     isAccountForbiddenError error = true <->
       kind error = AccountForbiddenKind \/
       occurs_any_case accountForbiddenMarker (message error))
  /\ (forall msg account, isAccountForbiddenError (AccountForbiddenError msg account) = true)
  /\ (forall msg, ~ occurs_any_case accountForbiddenMarker msg ->
                  isAccountForbiddenError (Error msg) = false)
  /\ isAccountForbiddenError (Error "403 VALIDATION_REQUIRED: Please complete validation") = false
  /\ isAccountForbiddenError (Error "API error 403: PERMISSION_DENIED") = false
  /\ isAccountForbiddenError (Error "API error 403: Forbidden") = false
  /\ isAccountForbiddenError (Error "429 RESOURCE_EXHAUSTED: quota exceeded") = false
  /\ isAccountForbiddenError (Error "AUTH_INVALID: token expired") = false
  /\ isAccountForbiddenError (Error "API error 500: Internal server error") = false
  /\ isAccountForbiddenError (Error "Something went wrong") = false.
Proof.
  assert (Hiff : forall error : ErrorValue,
     isAccountForbiddenError error = true <->
       kind error = AccountForbiddenKind \/
       occurs_any_case accountForbiddenMarker (message error)).
  { intros error. unfold isAccountForbiddenError.
    destruct (kind error) eqn:Hkind.
    - rewrite (includes_toUpperCase _ accountForbiddenMarker eq_refl).
      split; [now right | now intros [Hk | Hm]].
    - split; [now left | reflexivity]. }
  split; [exact Hiff|]. split; [reflexivity|]. split; [|repeat split].
  intros msg Hno. apply not_true_is_false. intros Htrue.
  apply Hiff in Htrue as [Hk | Hm]; [discriminate Hk | now apply Hno].
Qed.

(** C7, on the plain error of the test suite that carries the marker. *)
Lemma isAccountForbiddenError_only_explicit_witness :
  isAccountForbiddenError (Error "ACCOUNT_FORBIDDEN: validation required") = true.
Proof.
  apply (proj1 isAccountForbiddenError_only_explicit). right.
  exists EmptyString, "ACCOUNT_FORBIDDEN", ": validation required".
  split; reflexivity.
Defined.

(** ** extractVerificationUrl *)



















Lemma extractVerificationUrl_text (JSON_parse : string -> option Json) (text : string) :
  JSON_parse text ≫= structuredUrl = None ->
  extractVerificationUrl JSON_parse (Some text) = trimTrailing <$> scanCandidate text.
Proof.
  intros Hstruct. destruct text as [|x t]; [reflexivity|].
  unfold extractVerificationUrl. now rewrite Hstruct.
Qed.

(** The structured path wins and hands the URL back as it stands. *)
Lemma extractVerificationUrl_structured
  (JSON_parse : string -> option Json) (text url : string) (doc : Json) :
  text <> EmptyString -> JSON_parse text = Some doc ->
  structuredUrl doc = Some url ->
  extractVerificationUrl JSON_parse (Some text) = Some url.
Proof.
  intros Hne Hparse Hurl. destruct text as [|x t]; [now destruct Hne|].
  unfold extractVerificationUrl. rewrite Hparse. simpl. now rewrite Hurl.
Qed.



(** The other payloads of the test suites, none of which carries a
    structured URL: the dots of a nested redirect URL stay; a sentence's
    period, an angle bracket, a quote with a brace go; a compact JSON body
    that goes on after the URL without a space, and one that goes on with an
    escaped line feed, give the URL alone. *)
Example extractVerificationUrl_fixtures (JSON_parse : string -> option Json) :
  (forall text, JSON_parse text ≫= structuredUrl = None) ->
  extractVerificationUrl JSON_parse
    (Some "Visit https://accounts.google.com/signin/continue?sarp=1&scc=1&continue=https://aistudio.google.com to verify")
  = Some "https://accounts.google.com/signin/continue?sarp=1&scc=1&continue=https://aistudio.google.com"
  /\ extractVerificationUrl JSON_parse
       (Some "Go to https://accounts.google.com/signin/continue?continue=https://aistudio.google.com. Then retry")
     = Some "https://accounts.google.com/signin/continue?continue=https://aistudio.google.com"
  /\ extractVerificationUrl JSON_parse
       (Some "Visit <https://accounts.google.com/signin/continue?sarp=1&scc=1> to verify")
     = Some "https://accounts.google.com/signin/continue?sarp=1&scc=1"
  /\ extractVerificationUrl JSON_parse
       (Some (quoted "{`url`:`https://accounts.google.com/signin/continue?sarp=1&scc=1`}"))
     = Some "https://accounts.google.com/signin/continue?sarp=1&scc=1"
  /\ extractVerificationUrl JSON_parse
       (Some (quoted "{`url`:`https://accounts.google.com/signin/continue?sarp=1&scc=1`,`status`:`PERMISSION_DENIED`}"))
     = Some "https://accounts.google.com/signin/continue?sarp=1&scc=1"
  /\ extractVerificationUrl JSON_parse
       (Some (quoted "{`error`:{`code`:403,`message`:`To continue, verify your account at\n\nhttps://accounts.google.com/signin/continue?sarp=1&scc=1&continue=https://aistudio.google.com\n\nLearn more`,`status`:`PERMISSION_DENIED`}}"))
     = Some "https://accounts.google.com/signin/continue?sarp=1&scc=1&continue=https://aistudio.google.com"
  /\ extractVerificationUrl JSON_parse
       (Some "Error: https://accounts.google.com/signin/continue?sarp=1&scc=1&continue=https%3A%2F%2Faistudio.google.com&foo=bar end")
     = Some "https://accounts.google.com/signin/continue?sarp=1&scc=1&continue=https%3A%2F%2Faistudio.google.com&foo=bar"
  /\ extractVerificationUrl JSON_parse
       (Some "403 VALIDATION_REQUIRED: Visit https://accounts.google.com/signin/continue?sarp=1&scc=1&otp=abc123 to verify")
     = Some "https://accounts.google.com/signin/continue?sarp=1&scc=1&otp=abc123"
  /\ extractVerificationUrl JSON_parse
       (Some (quoted "{`error`:{`code`:403,`message`:`Generic permission denied`,`status`:`PERMISSION_DENIED`}}"))
     = None.
Proof.
  intros Hnone.
  rewrite !extractVerificationUrl_text by apply Hnone.
  repeat split.
Qed.

(** * Further properties of the pool manager *)

Lemma filter_update_found_incl (q p : Account -> bool) (f : Account -> Account)
  (l : list Account) :
  (forall a, q (f a) = false) ->
  forall a, In a (List.filter q (update_found p f l)) -> In a (List.filter q l).
Proof.
  intros Hq a. induction l as [|b t IH]; simpl; [tauto|].
  destruct (p b); simpl.
  - rewrite Hq. intros Hin. destruct (q b); [now right | exact Hin].
  - destruct (q b); simpl; [|exact IH]. intros [-> | Hin]; [now left | right; auto].
Qed.

Lemma filter_nil_iff (q : Account -> bool) (l : list Account) :
  List.filter q l = [] <-> forall a, In a l -> q a = false.
Proof.
  induction l as [|b t IH]; simpl; [tauto|].
  destruct (q b) eqn:Hb.
  - split; [discriminate|]. intros Hall. specialize (Hall b (or_introl eq_refl)).
    congruence.
  - rewrite IH. split.
    + intros Hall a [<- | Ha]; [exact Hb | now apply Hall].
    + intros Hall a Ha. apply Hall. now right.
Qed.

(** X1: [markInvalid] never makes an account available, and the account it marks
    is invalid afterwards and not among the available ones. *)
Theorem markInvalid_shrinks_available
  (this : MockAccountManager) (now : Z) (e : string) (reason url : JsValue)
  (model : string) :
  (forall a,
     In a (getAvailableAccounts (snd (markInvalid this now e reason url)) model) ->
     In a (getAvailableAccounts this model))
  /\ (forall acc, findAccount this e = Some acc ->
        exists acc',
          findAccount (snd (markInvalid this now e reason url)) e = Some acc'
          /\ isInvalid acc' = true
          /\ ~ In acc' (getAvailableAccounts (snd (markInvalid this now e reason url)) model)).
Proof.
  split.
  - intros a. unfold markInvalid, getAvailableAccounts.
    destruct (List.find _ _); simpl; [|tauto].
    apply filter_update_found_incl. reflexivity.
  - intros acc Hfind. eexists.
    split; [apply (findAccount_markInvalid _ _ _ _ _ _ Hfind)|].
    split; [reflexivity|].
    unfold getAvailableAccounts. rewrite filter_In. simpl. intros [_ Hf].
    discriminate Hf.
Qed.

(** X2: the two queries agree: the pool is all-invalid exactly when some account
    is enabled and no account is available, whatever the model. *)
Theorem isAllAccountsInvalid_no_available (this : MockAccountManager) (model : string) :
  isAllAccountsInvalid this = true <->
  getAvailableAccounts this model = []
  /\ exists a, In a (_accounts this) /\ enabled a <> JsBool false.
Proof.
  unfold isAllAccountsInvalid, getAvailableAccounts. cbv zeta.
  rewrite all_invalid_iff, filter_nil_iff. split.
  - intros [Hsome Hall]. split; [|exact Hsome].
    intros a Ha. destruct (strict_ne (enabled a) (JsBool false)) eqn:He.
    + apply strict_ne_true in He. now rewrite (Hall a Ha He).
    + apply andb_false_r.
  - intros [Hnone Hsome]. split; [exact Hsome|].
    intros a Ha He. specialize (Hnone a Ha). apply strict_ne_true in He.
    rewrite He, andb_true_r in Hnone. now apply negb_false_iff.
Qed.

(** The scenarios of the specification.  Three healthy accounts and
    [markInvalid] on the second: the first and third are available, in that
    order, and the pool is not all-invalid.  Two accounts, both marked:
    nothing is available and the pool is all-invalid; after [clearInvalid] on
    the first it is available again and the pool is no longer all-invalid. *)
Theorem pool_scenarios :
  let reason := JsString "Account requires verification" in
  let one_marked := snd (markInvalid pool_abc 1000 "b@test.com" reason JsUndefined) in
  let both_marked :=
    calls pool_ab [CallMarkInvalid 1000 "a@test.com" reason JsUndefined;
                   CallMarkInvalid 1001 "b@test.com" reason JsUndefined] in
  let cleared := snd (clearInvalid both_marked "a@test.com") in
  map email (getAvailableAccounts one_marked "gemini-pro") = ["a@test.com"; "c@test.com"]
  /\ isAllAccountsInvalid one_marked = false
  /\ getAvailableAccounts both_marked "gemini-pro" = []
  /\ isAllAccountsInvalid both_marked = true
  /\ map email (getAvailableAccounts cleared "gemini-pro") = ["a@test.com"]
  /\ isAllAccountsInvalid cleared = false.
Proof. cbv zeta. repeat split. Qed.

(** X4: no method writes a rate-limit window: in every state the manager reaches
    from its constructor, every account's [modelRateLimits] is empty.  A
    window can only come from writing the account object directly. *)
Theorem reachable_no_rate_limits (accounts : list Account) (cs : list Call)
  (a : Account) :
  In a (_accounts (calls (constructor accounts) cs)) -> modelRateLimits a = ∅.
Proof.
  intros Hin.
  assert (Hinv : Forall (fun a => modelRateLimits a = ∅)
                   (_accounts (calls (constructor accounts) cs))).
  { apply calls_preserve.
    - intros b Hb. exact Hb.
    - intros now e reason url b _ Hb. exact Hb.
    - simpl. apply List.Forall_forall. intros b Hb.
      now apply in_map_iff in Hb as (b0 & <- & _). }
  rewrite List.Forall_forall in Hinv. exact (Hinv a Hin).
Qed.

(** X4, after a [markRateLimited] and a [markInvalid] on the second account. *)
Lemma reachable_no_rate_limits_witness :
  modelRateLimits
    {| email := "b@test.com"; isInvalid := true;
       invalidReason := JsString "Account requires verification";
       verifyUrl := JsNull; invalidAt := JsNumber 1000;
       modelRateLimits := ∅; consecutiveFailures := 0;
       enabled := JsBool true |} = ∅.
Proof.
  apply (reachable_no_rate_limits [bare "a@test.com"; bare "b@test.com"]
           [CallMarkRateLimited "b@test.com" 60000 "gemini-pro";
            CallMarkInvalid 1000 "b@test.com"
              (JsString "Account requires verification") JsUndefined]).
  vm_compute. right. now left.
Defined.

(** X5: a valid account carries no reason and no verification url: in every
    state the manager reaches from its constructor, [isInvalid = false]
    comes with [invalidReason = null] and [verifyUrl = null]. *)
Theorem reachable_valid_is_clean (accounts : list Account) (cs : list Call)
  (a : Account) :
  In a (_accounts (calls (constructor accounts) cs)) ->
  isInvalid a = false ->
  invalidReason a = JsNull /\ verifyUrl a = JsNull.
Proof.
  intros Hin.
  assert (Hinv : Forall (fun a => isInvalid a = false ->
                                  invalidReason a = JsNull /\ verifyUrl a = JsNull)
                   (_accounts (calls (constructor accounts) cs))).
  { apply calls_preserve.
    - intros b _ _. now split.
    - intros now e reason url b _ _. simpl. discriminate.
    - simpl. apply List.Forall_forall. intros b Hb.
      apply in_map_iff in Hb as (b0 & <- & _). now split. }
  rewrite List.Forall_forall in Hinv. exact (Hinv a Hin).
Qed.

(** X5, after [markInvalid] with a url and [clearInvalid]. *)
Lemma reachable_valid_is_clean_witness :
  invalidReason
    {| email := "a@test.com"; isInvalid := false; invalidReason := JsNull;
       verifyUrl := JsNull; invalidAt := JsNumber 1000;
       modelRateLimits := ∅; consecutiveFailures := 0;
       enabled := JsBool true |} = JsNull
  /\ verifyUrl
       {| email := "a@test.com"; isInvalid := false; invalidReason := JsNull;
          verifyUrl := JsNull; invalidAt := JsNumber 1000;
          modelRateLimits := ∅; consecutiveFailures := 0;
          enabled := JsBool true |} = JsNull.
Proof.
  apply (reachable_valid_is_clean [bare "a@test.com"]
           [CallMarkInvalid 1000 "a@test.com" (JsString "Token revoked")
              (JsString "https://accounts.google.com/signin/continue?sarp=1");
            CallClearInvalid "a@test.com"]).
  - vm_compute. now left.
  - reflexivity.
Defined.

(** ** How the mutators act on the array *)

Lemma accounts_markInvalid this now e reason url :
  _accounts (snd (markInvalid this now e reason url)) =
  update_found (has_email e) (set_invalid reason (default_param url JsNull) now)
    (_accounts this).
Proof.
  unfold markInvalid. destruct (List.find _ _) eqn:Hfind; simpl; [reflexivity|].
  symmetry. now apply update_found_None.
Qed.

Lemma accounts_clearInvalid this e :
  _accounts (snd (clearInvalid this e)) =
  update_found (has_email e) reset_invalid (_accounts this).
Proof.
  unfold clearInvalid. destruct (List.find _ _) eqn:Hfind; simpl; [reflexivity|].
  symmetry. now apply update_found_None.
Qed.

Lemma map_update_found {B : Type} (g : Account -> B) (p : Account -> bool)
  (f : Account -> Account) (l : list Account) :
  (forall a, g (f a) = g a) -> map g (update_found p f l) = map g l.
Proof.
  intros Hg. induction l as [|b t IH]; simpl; [reflexivity|].
  destruct (p b); simpl; [now rewrite Hg | now rewrite IH].
Qed.

Lemma update_found_hit (p : Account -> bool) (f : Account -> Account)
  (pre post : list Account) (a : Account) :
  (forall b, In b pre -> p b = false) -> p a = true ->
  update_found p f (pre ++ a :: post) = pre ++ f a :: post.
Proof.
  intros Hpre Ha. induction pre as [|b pre IH]; simpl.
  - now rewrite Ha.
  - rewrite (Hpre b (or_introl eq_refl)). rewrite IH; [reflexivity|].
    intros c Hc. apply Hpre. now right.
Qed.

Lemma In_update_found_other (p : Account -> bool) (f : Account -> Account)
  (l : list Account) (a : Account) :
  p a = false -> In a l -> In a (update_found p f l).
Proof.
  intros Ha. induction l as [|b t IH]; simpl; [tauto|].
  intros [-> | Hin].
  - rewrite Ha. now left.
  - destruct (p b); right; auto.
Qed.

Lemma update_found_commute (p q : Account -> bool) (f g : Account -> Account)
  (l : list Account) :
  (forall a, p a = true -> q a = false) ->
  (forall a, p (g a) = p a) -> (forall a, q (f a) = q a) ->
  update_found p f (update_found q g l) = update_found q g (update_found p f l).
Proof.
  intros Hpq Hpg Hqf. induction l as [|b t IH]; simpl; [reflexivity|].
  destruct (p b) eqn:Hp.
  - rewrite (Hpq b Hp). simpl. rewrite Hp, Hqf, (Hpq b Hp). reflexivity.
  - destruct (q b) eqn:Hq; simpl.
    + now rewrite Hpg, Hp, Hq.
    + now rewrite Hp, Hq, IH.
Qed.

Lemma filter_cons_split (q : Account -> bool) (l : list Account)
  (a : Account) (rest : list Account) :
  List.filter q l = a :: rest ->
  exists pre post,
    l = pre ++ a :: post /\ List.filter q pre = [] /\ List.filter q post = rest
    /\ q a = true.
Proof.
  induction l as [|b t IH]; simpl; [discriminate|].
  destruct (q b) eqn:Hb.
  - intros [= -> <-]. exists [], t. now repeat split.
  - intros Hf. destruct (IH Hf) as (pre & post & -> & Hpre & Hpost & Ha).
    exists (b :: pre), post. simpl. rewrite Hb. now repeat split.
Qed.

(** With pairwise different emails, the account at a place is the one [find]
    reaches for its email. *)
Lemma NoDup_emails_before (pre post : list Account) (a : Account) :
  List.NoDup (map email (pre ++ a :: post)) ->
  forall b, In b pre -> has_email (email a) b = false.
Proof.
  intros Hnd b Hb. rewrite map_app in Hnd. simpl in Hnd.
  apply List.NoDup_remove_2 in Hnd.
  apply not_true_is_false. intros Heq. apply has_email_true in Heq.
  apply Hnd. apply in_or_app. left. rewrite <- Heq. now apply in_map.
Qed.

Lemma has_email_self (a : Account) : has_email (email a) a = true.
Proof. now apply has_email_true. Qed.

(** ** Rotation *)

(** X3: with pairwise different emails, marking the first available account
    invalid succeeds and leaves exactly the other available accounts, in
    their order: the next call of [getAvailableAccounts] starts at the
    account that was second. *)
Theorem markInvalid_rotates
  (this : MockAccountManager) (now : Z) (reason url : JsValue)
  (model model' : string) (a : Account) (rest : list Account) :
  List.NoDup (map email (_accounts this)) ->
  getAvailableAccounts this model = a :: rest ->
  fst (markInvalid this now (email a) reason url) = true
  /\ getAvailableAccounts (snd (markInvalid this now (email a) reason url)) model'
     = rest.
Proof.
  intros Hnd Havail. unfold getAvailableAccounts in Havail.
  apply filter_cons_split in Havail as (pre & post & Hl & Hpre & Hpost & Ha).
  rewrite Hl in Hnd.
  pose proof (NoDup_emails_before pre post a Hnd) as Hbefore.
  split.
  - unfold markInvalid. rewrite Hl.
    destruct (List.find (has_email (email a)) (pre ++ a :: post)) eqn:Hfind;
      [reflexivity|].
    pose proof (find_none _ _ Hfind a) as Hno.
    rewrite has_email_self in Hno. discriminate Hno.
    apply in_or_app. right. now left.
  - unfold getAvailableAccounts. rewrite accounts_markInvalid, Hl.
    rewrite update_found_hit; [|exact Hbefore|apply has_email_self].
    rewrite List.filter_app, Hpre. simpl. exact Hpost.
Qed.

(** X3, on the two-account pool: after the first account is marked, the second
    is the one the handler gets. *)
Lemma markInvalid_rotates_witness :
  getAvailableAccounts
    (snd (markInvalid pool_ab 1000 "a@test.com"
            (JsString "Account requires verification") JsUndefined))
    "gemini-pro"
  = [ {| email := "b@test.com"; isInvalid := false; invalidReason := JsNull;
         verifyUrl := JsNull; invalidAt := JsUndefined;
         modelRateLimits := ∅; consecutiveFailures := 0;
         enabled := JsBool true |} ].
Proof.
  refine (proj2 (markInvalid_rotates pool_ab 1000
                   (JsString "Account requires verification") JsUndefined
                   "claude-sonnet" "gemini-pro"
                   {| email := "a@test.com"; isInvalid := false;
                      invalidReason := JsNull; verifyUrl := JsNull;
                      invalidAt := JsUndefined; modelRateLimits := ∅;
                      consecutiveFailures := 0; enabled := JsBool true |}
                   _ _ _)).
  - simpl. repeat constructor; simpl; intuition discriminate.
  - reflexivity.
Defined.

Lemma markEach_all_invalid (clock : nat -> Z) (reason : JsValue)
  (todo : list Account) :
  forall (i : nat) (pre : list Account) (this : MockAccountManager),
    _accounts this = pre ++ todo ->
    List.NoDup (map email (pre ++ todo)) ->
    Forall (fun a => isInvalid a = true) pre ->
    Forall (fun a => isInvalid a = true)
      (_accounts (markEach clock i todo reason this))
    /\ map email (_accounts (markEach clock i todo reason this))
       = map email (pre ++ todo)
    /\ map enabled (_accounts (markEach clock i todo reason this))
       = map enabled (pre ++ todo).
Proof.
  induction todo as [|a t IH]; intros i pre this Hacc Hnd Hpre; simpl.
  - rewrite Hacc, app_nil_r. now repeat split.
  - set (a' := set_invalid reason (default_param JsUndefined JsNull) (clock i) a).
    assert (Hacc' : _accounts (snd (markInvalid this (clock i) (email a) reason JsUndefined))
                    = (pre ++ [a']) ++ t).
    { rewrite accounts_markInvalid, Hacc.
      rewrite update_found_hit;
        [|exact (NoDup_emails_before pre t a Hnd)|apply has_email_self].
      now rewrite <- app_assoc. }
    assert (Hemails : map email ((pre ++ [a']) ++ t) = map email (pre ++ a :: t)).
    { rewrite <- app_assoc. simpl. now rewrite !map_app. }
    assert (Henabled : map enabled ((pre ++ [a']) ++ t) = map enabled (pre ++ a :: t)).
    { rewrite <- app_assoc. simpl. now rewrite !map_app. }
    destruct (IH (S i) (pre ++ [a']) _ Hacc') as (Hall & Hem & Hen).
    + now rewrite Hemails.
    + apply Forall_app. split; [exact Hpre | now repeat constructor].
    + split; [exact Hall|]. now rewrite Hem, Hen, Hemails, Henabled.
Qed.

(** X6: with pairwise different emails, after the loop that marks every
    account of the pool invalid, every account is invalid, none is available
    for any model, the accounts are the same emails in the same order, and
    the pool is all-invalid exactly when it had an enabled account. *)
Theorem markAllInvalid_none_available
  (this : MockAccountManager) (clock : nat -> Z) (reason : JsValue)
  (model : string) :
  List.NoDup (map email (_accounts this)) ->
  getAvailableAccounts (markAllInvalid clock reason this) model = []
  /\ (forall a, In a (_accounts (markAllInvalid clock reason this)) ->
                isInvalid a = true)
  /\ map email (_accounts (markAllInvalid clock reason this))
     = map email (_accounts this)
  /\ (isAllAccountsInvalid (markAllInvalid clock reason this) = true <->
      exists a, In a (_accounts this) /\ enabled a <> JsBool false).
Proof.
  intros Hnd. unfold markAllInvalid, getAllAccounts.
  destruct (markEach_all_invalid clock reason (_accounts this) 0%nat [] this
              eq_refl Hnd (List.Forall_nil _)) as (Hall & Hem & Hen).
  simpl in Hem, Hen. rewrite List.Forall_forall in Hall.
  split; [|split; [exact Hall | split; [exact Hem|]]].
  - unfold getAvailableAccounts. apply filter_nil_iff. intros a Ha.
    now rewrite (Hall a Ha).
  - unfold isAllAccountsInvalid. cbv zeta. rewrite all_invalid_iff.
    assert (Hsame : (exists a, In a (_accounts (markEach clock 0 (_accounts this) reason this))
                               /\ enabled a <> JsBool false)
                    <-> exists a, In a (_accounts this) /\ enabled a <> JsBool false).
    { split; intros (a & Ha & He).
      - apply (in_map enabled) in Ha. rewrite Hen in Ha.
        apply in_map_iff in Ha as (b & Hb & Hin). exists b. now rewrite Hb.
      - apply (in_map enabled) in Ha. rewrite <- Hen in Ha.
        apply in_map_iff in Ha as (b & Hb & Hin). exists b. now rewrite Hb. }
    rewrite Hsame. split; [tauto|]. intros Hsome. split; [exact Hsome|].
    intros a Ha _. now apply Hall.
Qed.

(** X6, on the three-account pool of the test suite. *)
Lemma markAllInvalid_none_available_witness :
  getAvailableAccounts
    (markAllInvalid (fun i => 1000 + Z.of_nat i)
       (JsString "Account requires verification") pool_abc) "gemini-pro" = [].
Proof.
  apply (markAllInvalid_none_available pool_abc (fun i => 1000 + Z.of_nat i)
           (JsString "Account requires verification") "gemini-pro").
  simpl. repeat constructor; simpl; intuition discriminate.
Defined.

(** ** Recovery *)

(** X7: [clearInvalid] on an email whose account is not disabled makes that
    account available for every model, whatever state it was in, and takes
    no account with another email out of the available ones. *)
Theorem clearInvalid_makes_available
  (this : MockAccountManager) (e : string) (acc : Account) (model : string) :
  findAccount this e = Some acc ->
  enabled acc <> JsBool false ->
  In (reset_invalid acc) (getAvailableAccounts (snd (clearInvalid this e)) model)
  /\ (forall a, In a (getAvailableAccounts this model) -> email a <> e ->
                In a (getAvailableAccounts (snd (clearInvalid this e)) model)).
Proof.
  intros Hfind Hen. unfold getAvailableAccounts.
  rewrite accounts_clearInvalid. split.
  - apply filter_In. split.
    + destruct (update_found_insert (has_email e) reset_invalid _ _ Hfind)
        as (i & Hi & _ & ->).
      apply list_elem_of_In, list_elem_of_lookup. exists i.
      apply list_lookup_insert_eq. now apply lookup_lt_Some in Hi.
    + simpl. now apply strict_ne_true.
  - intros a Ha Hne. apply filter_In in Ha as [Ha Hq].
    apply filter_In. split; [|exact Hq].
    apply In_update_found_other; [|exact Ha].
    apply not_true_is_false. intros Heq. now apply has_email_true in Heq.
Qed.

(** X7, on the pool in which both accounts were marked: the first one comes
    back. *)
Lemma clearInvalid_makes_available_witness :
  In {| email := "a@test.com"; isInvalid := false; invalidReason := JsNull;
        verifyUrl := JsNull; invalidAt := JsNumber 1000;
        modelRateLimits := ∅; consecutiveFailures := 0;
        enabled := JsBool true |}
     (getAvailableAccounts
        (snd (clearInvalid
                (calls pool_ab
                   [CallMarkInvalid 1000 "a@test.com" (JsString "Token revoked") JsNull;
                    CallMarkInvalid 1001 "b@test.com" (JsString "Token revoked") JsNull])
                "a@test.com"))
        "gemini-pro").
Proof.
  refine (proj1 (clearInvalid_makes_available
                   (calls pool_ab
                      [CallMarkInvalid 1000 "a@test.com" (JsString "Token revoked") JsNull;
                       CallMarkInvalid 1001 "b@test.com" (JsString "Token revoked") JsNull])
                   "a@test.com"
                   {| email := "a@test.com"; isInvalid := true;
                      invalidReason := JsString "Token revoked";
                      verifyUrl := JsNull; invalidAt := JsNumber 1000;
                      modelRateLimits := ∅; consecutiveFailures := 0;
                      enabled := JsBool true |}
                   "gemini-pro" _ _)).
  - reflexivity.
  - discriminate.
Defined.

(** ** What no method changes *)

Lemma call_keeps_map {B : Type} (g : Account -> B) (this : MockAccountManager)
  (c : Call) :
  (forall a, g (reset_invalid a) = g a) ->
  (forall reason url now a, g (set_invalid reason url now a) = g a) ->
  map g (_accounts (call this c)) = map g (_accounts this).
Proof.
  intros Hreset Hset. destruct c; simpl; try reflexivity.
  - rewrite accounts_markInvalid. apply map_update_found. intros a. apply Hset.
  - rewrite accounts_clearInvalid. now apply map_update_found.
Qed.

Lemma calls_keep_map {B : Type} (g : Account -> B) (cs : list Call) :
  (forall a, g (reset_invalid a) = g a) ->
  (forall reason url now a, g (set_invalid reason url now a) = g a) ->
  forall this, map g (_accounts (calls this cs)) = map g (_accounts this).
Proof.
  intros Hreset Hset. unfold calls.
  induction cs as [|c cs IH]; intros this; simpl; [reflexivity|].
  rewrite IH. now apply call_keeps_map.
Qed.

(** X8: no sequence of method calls adds, removes, reorders or renames an
    account, and none changes an account's [enabled] flag, its
    [modelRateLimits] or its [consecutiveFailures]: only the four health
    fields ever move. *)
Theorem calls_keep_roster (this : MockAccountManager) (cs : list Call) :
  length (_accounts (calls this cs)) = length (_accounts this)
  /\ map email (_accounts (calls this cs)) = map email (_accounts this)
  /\ map enabled (_accounts (calls this cs)) = map enabled (_accounts this)
  /\ map modelRateLimits (_accounts (calls this cs))
     = map modelRateLimits (_accounts this)
  /\ map consecutiveFailures (_accounts (calls this cs))
     = map consecutiveFailures (_accounts this).
Proof.
  assert (Hemail : map email (_accounts (calls this cs)) = map email (_accounts this))
    by now apply calls_keep_map.
  split; [|split; [exact Hemail | repeat split; now apply calls_keep_map]].
  rewrite <- (length_map email), Hemail. apply length_map.
Qed.

(** ** The log and the save counter *)

Lemma call_appends (this : MockAccountManager) (c : Call) :
  (exists entries, _log (call this c) = _log this ++ entries
                   /\ (length entries <= 1)%nat)
  /\ _savedToDisk this <= _savedToDisk (call this c) <= _savedToDisk this + 1
  /\ (match c with CallClearInvalid _ | CallSaveToDisk => False | _ => True end ->
      _savedToDisk (call this c) = _savedToDisk this).
Proof.
  destruct c as [now e reason url|e|e r m|a m|a m|a m|]; simpl.
  - unfold markInvalid. destruct (List.find _ _); simpl.
    + split; [eexists; split; [reflexivity | simpl; lia] | split; [lia | reflexivity]].
    + split; [exists []; split; [now rewrite app_nil_r | simpl; lia]
             | split; [lia | reflexivity]].
  - unfold clearInvalid. destruct (List.find _ _); simpl.
    + split; [eexists; split; [reflexivity | simpl; lia] | split; [lia | tauto]].
    + split; [exists []; split; [now rewrite app_nil_r | simpl; lia]
             | split; [lia | tauto]].
  - split; [eexists; split; [reflexivity | simpl; lia] | split; [lia | reflexivity]].
  - split; [eexists; split; [reflexivity | simpl; lia] | split; [lia | reflexivity]].
  - split; [eexists; split; [reflexivity | simpl; lia] | split; [lia | reflexivity]].
  - split; [eexists; split; [reflexivity | simpl; lia] | split; [lia | reflexivity]].
  - split; [exists []; split; [now rewrite app_nil_r | simpl; lia]
           | split; [lia | tauto]].
Qed.

(** X9: the log is append-only and the save counter never goes down: after
    any sequence of calls the old log is a prefix of the new one, at most one
    entry was added per call, the counter grew by at most one per call, and
    it did not move at all when the sequence holds no [clearInvalid] and no
    [saveToDisk] ([markInvalid], [markRateLimited] and the notification hooks
    never save). *)
Theorem calls_append_only (this : MockAccountManager) (cs : list Call) :
  (exists entries, _log (calls this cs) = _log this ++ entries
                   /\ (length entries <= length cs)%nat)
  /\ _savedToDisk this <= _savedToDisk (calls this cs)
     <= _savedToDisk this + Z.of_nat (length cs)
  /\ (Forall (fun c => match c with
                       | CallClearInvalid _ | CallSaveToDisk => False
                       | _ => True
                       end) cs ->
      _savedToDisk (calls this cs) = _savedToDisk this).
Proof.
  unfold calls. revert this.
  induction cs as [|c cs IH]; intros this; simpl fold_left.
  - split; [exists []; split; [now rewrite app_nil_r | simpl; lia]
           | split; [simpl; lia | reflexivity]].
  - destruct (IH (call this c)) as ((es & Hlog & Hlen) & Hsave & Hnone).
    destruct (call_appends this c) as ((es1 & Hlog1 & Hlen1) & Hsave1 & Hnone1).
    split; [|split].
    + exists (es1 ++ es). rewrite Hlog, Hlog1, <- app_assoc. split; [reflexivity|].
      rewrite length_app. simpl. lia.
    + simpl length. lia.
    + intros Hall. apply List.Forall_cons_iff in Hall as [Hc Hcs].
      rewrite (Hnone Hcs). now apply Hnone1.
Qed.

(** X9, for a sequence without [clearInvalid] and [saveToDisk]. *)
Lemma calls_append_only_witness :
  _savedToDisk
    (calls pool_ab
       [CallMarkInvalid 1000 "a@test.com" (JsString "Token revoked") JsNull;
        CallMarkRateLimited "b@test.com" 60000 "gemini-pro"])
  = _savedToDisk pool_ab.
Proof.
  apply (proj2 (proj2 (calls_append_only pool_ab
           [CallMarkInvalid 1000 "a@test.com" (JsString "Token revoked") JsNull;
            CallMarkRateLimited "b@test.com" 60000 "gemini-pro"]))).
  repeat constructor.
Defined.

(** ** How the mutators compose *)

Lemma update_found_ext (p : Account -> bool) (f g : Account -> Account)
  (l : list Account) :
  (forall a, f a = g a) -> update_found p f l = update_found p g l.
Proof.
  intros Hfg. induction l as [|b t IH]; simpl; [reflexivity|].
  now rewrite Hfg, IH.
Qed.

Lemma has_email_other (e1 e2 : string) (a : Account) :
  e1 <> e2 -> has_email e1 a = true -> has_email e2 a = false.
Proof.
  intros Hne H1. apply has_email_true in H1. apply not_true_is_false.
  intros H2. apply has_email_true in H2. congruence.
Qed.

(** X10: on the accounts, the last [markInvalid] for an email wins over an
    earlier [markInvalid] or [clearInvalid] for it, [clearInvalid] is
    idempotent, and calls for two different emails can be swapped. *)
Theorem mutators_compose (this : MockAccountManager) :
  (forall e n1 r1 u1 n2 r2 u2,
     _accounts (snd (markInvalid (snd (markInvalid this n1 e r1 u1)) n2 e r2 u2))
     = _accounts (snd (markInvalid this n2 e r2 u2)))
  /\ (forall e n r u,
        _accounts (snd (markInvalid (snd (clearInvalid this e)) n e r u))
        = _accounts (snd (markInvalid this n e r u)))
  /\ (forall e,
        _accounts (snd (clearInvalid (snd (clearInvalid this e)) e))
        = _accounts (snd (clearInvalid this e)))
  /\ (forall e1 e2 n1 r1 u1 n2 r2 u2, e1 <> e2 ->
        _accounts (snd (markInvalid (snd (markInvalid this n1 e1 r1 u1)) n2 e2 r2 u2))
        = _accounts (snd (markInvalid (snd (markInvalid this n2 e2 r2 u2)) n1 e1 r1 u1)))
  /\ (forall e1 e2 n r u, e1 <> e2 ->
        _accounts (snd (clearInvalid (snd (markInvalid this n e1 r u)) e2))
        = _accounts (snd (markInvalid (snd (clearInvalid this e2)) n e1 r u))).
Proof.
  repeat split; intros.
  - rewrite !accounts_markInvalid, update_found_twice by (intros ? Hp; exact Hp).
    now apply update_found_ext.
  - repeat (rewrite accounts_markInvalid || rewrite accounts_clearInvalid).
    rewrite update_found_twice by (intros ? Hp; exact Hp).
    now apply update_found_ext.
  - rewrite !accounts_clearInvalid, update_found_twice by (intros ? Hp; exact Hp).
    now apply update_found_ext.
  - rewrite !accounts_markInvalid.
    apply update_found_commute; [|reflexivity|reflexivity].
    intros a. now apply has_email_other.
  - repeat (rewrite accounts_markInvalid || rewrite accounts_clearInvalid).
    apply update_found_commute; [|reflexivity|reflexivity].
    intros a. apply has_email_other. congruence.
Qed.

(** X10, swapping the two [markInvalid] calls of the all-invalid test. *)
Lemma mutators_compose_witness :
  _accounts (calls pool_ab
     [CallMarkInvalid 1000 "a@test.com" (JsString "Account requires verification") JsUndefined;
      CallMarkInvalid 1000 "b@test.com" (JsString "Account requires verification") JsUndefined])
  = _accounts (calls pool_ab
     [CallMarkInvalid 1000 "b@test.com" (JsString "Account requires verification") JsUndefined;
      CallMarkInvalid 1000 "a@test.com" (JsString "Account requires verification") JsUndefined]).
Proof.
  apply (proj1 (proj2 (proj2 (proj2 (mutators_compose pool_ab))))
           "a@test.com" "b@test.com"). discriminate.
Defined.

(** ** The refresh logic *)

(** X11: the refresh step clears an account exactly when it was marked with a
    verification url.  After [markInvalid(email, reason, url)] on a present
    email, refreshing the account leaves the manager as it is when [url] is
    falsy (an auth error stays invalid), and hands back a valid account with
    no reason and no url when [url] is truthy; refreshing a valid account
    never does anything. *)
Theorem refreshAccount_only_verification
  (this : MockAccountManager) (now : Z) (e : string) (reason url : JsValue)
  (acc : Account) :
  findAccount this e = Some acc ->
  let marked := snd (markInvalid this now e reason url) in
  let acc1 := set_invalid reason (default_param url JsNull) now acc in
  findAccount marked e = Some acc1
  /\ (truthy url = false -> refreshAccount marked acc1 = marked)
  /\ (truthy url = true ->
      exists acc2,
        findAccount (refreshAccount marked acc1) e = Some acc2
        /\ isInvalid acc2 = false /\ invalidReason acc2 = JsNull
        /\ verifyUrl acc2 = JsNull)
  /\ (forall m a, isInvalid a = false -> refreshAccount m a = m).
Proof.
  intros Hfind marked acc1.
  pose proof (findAccount_markInvalid this now e reason url acc Hfind) as Hmid.
  fold marked acc1 in Hmid.
  assert (Hurl : truthy (verifyUrl acc1) = truthy url).
  { unfold acc1. simpl. unfold js_or.
    destruct url as [| |[]|n|[|c s]]; simpl; try reflexivity.
    destruct (n =? 0) eqn:Hn; simpl; [reflexivity | now rewrite Hn]. }
  split; [exact Hmid|]. split; [|split].
  - intros Hfalsy. unfold refreshAccount. rewrite Hurl, Hfalsy.
    now rewrite andb_false_r.
  - intros Htruthy. unfold refreshAccount. rewrite Hurl, Htruthy. simpl.
    assert (He : email acc = e) by (apply find_some in Hfind as [_ H]; now apply has_email_true).
    rewrite He. exists (reset_invalid acc1).
    split; [|now repeat split].
    unfold findAccount. rewrite accounts_clearInvalid.
    apply find_update_found; [exact Hmid|].
    rewrite has_email_reset_invalid. now apply find_some in Hmid.
  - intros m a Ha. unfold refreshAccount. now rewrite Ha.
Qed.

(** X11, on the auth error of the test suite: no url, so the refresh changes
    nothing. *)
Lemma refreshAccount_only_verification_witness :
  refreshAccount
    (snd (markInvalid pool_ab 1000 "a@test.com" (JsString "Token revoked") JsNull))
    {| email := "a@test.com"; isInvalid := true;
       invalidReason := JsString "Token revoked"; verifyUrl := JsNull;
       invalidAt := JsNumber 1000; modelRateLimits := ∅;
       consecutiveFailures := 0; enabled := JsBool true |}
  = snd (markInvalid pool_ab 1000 "a@test.com" (JsString "Token revoked") JsNull).
Proof.
  refine (proj1 (proj2 (refreshAccount_only_verification pool_ab 1000 "a@test.com"
                          (JsString "Token revoked") JsNull
                          {| email := "a@test.com"; isInvalid := false;
                             invalidReason := JsNull; verifyUrl := JsNull;
                             invalidAt := JsUndefined; modelRateLimits := ∅;
                             consecutiveFailures := 0; enabled := JsBool true |}
                          eq_refl)) eq_refl).
Defined.

(** ** The test runner *)

Lemma runTests_from (tests : list (string * option string)) (r : Runner) :
  passed (runTests r tests) + failed (runTests r tests)
  = passed r + failed r + Z.of_nat (length tests)
  /\ failures (runTests r tests)
     = failures r ++
       flat_map (fun t => match snd t with
                          | Some msg => [(fst t, msg)]
                          | None => []
                          end) tests
  /\ failed (runTests r tests) - Z.of_nat (length (failures (runTests r tests)))
     = failed r - Z.of_nat (length (failures r)).
Proof.
  unfold runTests. revert r.
  induction tests as [|[name fn] tests IH]; intros r; cbn [fold_left fst snd].
  - simpl. rewrite app_nil_r. repeat split; lia.
  - destruct (IH (test r name fn)) as (Hcount & Hfail & Hlen).
    split; [rewrite Hcount | split; [rewrite Hfail | rewrite Hlen]];
      destruct fn as [msg|]; simpl; try lia.
    + now rewrite <- app_assoc.
    + reflexivity.
    + rewrite length_app. simpl. lia.
Qed.

(** X12: after a run of the suite from fresh counters, [passed + failed] is
    the number of tests run, [failures] lists exactly the tests that threw,
    in order and with their messages, its length is [failed], and the exit
    status is 0 exactly when no test threw. *)
Theorem runTests_counts (tests : list (string * option string)) :
  passed (runTests runner0 tests) + failed (runTests runner0 tests)
  = Z.of_nat (length tests)
  /\ failures (runTests runner0 tests)
     = flat_map (fun t => match snd t with
                          | Some msg => [(fst t, msg)]
                          | None => []
                          end) tests
  /\ Z.of_nat (length (failures (runTests runner0 tests)))
     = failed (runTests runner0 tests)
  /\ (exitCode (runTests runner0 tests) = 0 <->
      forall t, In t tests -> snd t = None).
Proof.
  destruct (runTests_from tests runner0) as (Hcount & Hfail & Hlen).
  simpl in Hcount, Hfail, Hlen.
  split; [lia|]. split; [exact Hfail|]. split; [lia|].
  unfold exitCode. rewrite Hfail. clear.
  induction tests as [|[name [msg|]] tests IH]; simpl.
  - split; [intros _ t [] | reflexivity].
  - split; [discriminate|]. intros Hall.
    specialize (Hall (name, Some msg) (or_introl eq_refl)). discriminate Hall.
  - rewrite IH. split.
    + intros Hall t [<- | Ht]; [reflexivity | now apply Hall].
    + intros Hall t Ht. apply Hall. now right.
Qed.

(** * Properties of the dashboard filters *)

(** ** Arrays of strings *)

Lemma arrayIncludes_In (xs : list string) (x : string) :
  arrayIncludes xs x = true <-> In x xs.
Proof.
  unfold arrayIncludes. rewrite existsb_exists. split.
  - intros (y & Hy & Heq). apply String.eqb_eq in Heq. now subst.
  - intros Hin. exists x. split; [exact Hin | apply String.eqb_refl].
Qed.

Lemma arrayIncludes_not_In (xs : list string) (x : string) :
  arrayIncludes xs x = false <-> ~ In x xs.
Proof. rewrite <- arrayIncludes_In. now destruct (arrayIncludes xs x). Qed.

Lemma arrayIncludes_ext (xs ys : list string) (x : string) :
  (In x xs <-> In x ys) -> arrayIncludes xs x = arrayIncludes ys x.
Proof.
  intros Hiff. destruct (arrayIncludes ys x) eqn:Hy.
  - apply arrayIncludes_In, Hiff. now apply arrayIncludes_In.
  - apply arrayIncludes_not_In. intros Hx. apply arrayIncludes_not_In in Hy.
    now apply Hy, Hiff.
Qed.

Lemma In_removeFirst_other (x y : string) (xs : list string) :
  x <> y -> In y (removeFirst x xs) <-> In y xs.
Proof.
  intros Hne. induction xs as [|z t IH]; simpl; [tauto|].
  destruct (String.eqb_spec x z) as [<- | Hxz]; simpl.
  - split; [now right | intros [Heq | Hin]; [congruence | exact Hin]].
  - now rewrite IH.
Qed.

Lemma In_removeFirst (x y : string) (xs : list string) :
  In y (removeFirst x xs) -> In y xs.
Proof.
  induction xs as [|z t IH]; simpl; [tauto|].
  destruct (String.eqb x z); simpl; [now right|].
  intros [-> | Hin]; [now left | right; auto].
Qed.

Lemma NoDup_removeFirst (x : string) (xs : list string) :
  List.NoDup xs -> List.NoDup (removeFirst x xs) /\ ~ In x (removeFirst x xs).
Proof.
  induction 1 as [|z t Hz Ht IH]; simpl.
  - split; [constructor | tauto].
  - destruct (String.eqb_spec x z) as [<- | Hxz].
    + now split.
    + destruct IH as [Hnd Hnot]. split.
      * constructor; [|exact Hnd]. intros Hin. apply Hz. now apply In_removeFirst in Hin.
      * simpl. intros [Heq | Hin]; [congruence | now apply Hnot].
Qed.

Lemma removeFirst_snoc (x : string) (xs : list string) :
  ~ In x xs -> removeFirst x (xs ++ [x]) = xs.
Proof.
  induction xs as [|z t IH]; simpl; intros Hnot.
  - now rewrite String.eqb_refl.
  - destruct (String.eqb_spec x z) as [<- | Hxz]; [tauto|].
    rewrite IH; [reflexivity | tauto].
Qed.

Lemma removeFirst_Permutation (x : string) (xs : list string) :
  In x xs -> Permutation (removeFirst x xs ++ [x]) xs.
Proof.
  induction xs as [|z t IH]; simpl; [tauto|].
  destruct (String.eqb_spec x z) as [<- | Hxz].
  - intros _. rewrite Permutation_app_comm. reflexivity.
  - intros [Heq | Hin]; [congruence|]. simpl. now rewrite IH.
Qed.

Lemma NoDup_push (xs : list string) (x : string) :
  List.NoDup xs -> ~ In x xs -> List.NoDup (xs ++ [x]).
Proof.
  induction 1 as [|z t Hz Ht IH]; simpl; intros Hnot.
  - repeat constructor. tauto.
  - constructor.
    + rewrite in_app_iff. simpl. intros [Hin | [Heq | []]]; [tauto|].
      subst. tauto.
    + apply IH. tauto.
Qed.

Lemma In_toggleIn_other (xs : list string) (x y : string) :
  x <> y -> In y (toggleIn xs x) <-> In y xs.
Proof.
  intros Hne. unfold toggleIn. destruct (arrayIncludes xs x).
  - now apply In_removeFirst_other.
  - rewrite in_app_iff. simpl. intuition congruence.
Qed.

Lemma toggleIn_flips (xs : list string) (x : string) :
  List.NoDup xs ->
  arrayIncludes (toggleIn xs x) x = negb (arrayIncludes xs x)
  /\ List.NoDup (toggleIn xs x).
Proof.
  intros Hnd. unfold toggleIn. destruct (arrayIncludes xs x) eqn:Hx; simpl.
  - destruct (NoDup_removeFirst x xs Hnd) as [Hnd' Hnot].
    split; [now apply arrayIncludes_not_In | exact Hnd'].
  - apply arrayIncludes_not_In in Hx. split.
    + apply arrayIncludes_In, in_or_app. right. now left.
    + now apply NoDup_push.
Qed.

Lemma toggleIn_twice (xs : list string) (x : string) :
  List.NoDup xs ->
  Permutation (toggleIn (toggleIn xs x) x) xs
  /\ (arrayIncludes xs x = false -> toggleIn (toggleIn xs x) x = xs).
Proof.
  intros Hnd. destruct (toggleIn_flips xs x Hnd) as [Hflip _].
  unfold toggleIn at 1 3. rewrite Hflip.
  unfold toggleIn. destruct (arrayIncludes xs x) eqn:Hx; simpl.
  - split; [|discriminate]. apply removeFirst_Permutation.
    now apply arrayIncludes_In.
  - apply arrayIncludes_not_In in Hx. rewrite removeFirst_snoc by exact Hx.
    now split.
Qed.

(** ** Toggling *)

Lemma savePreferences_selection (c : Dashboard) :
  selectedFamilies (savePreferences c) = selectedFamilies c
  /\ selectedModels (savePreferences c) = selectedModels c
  /\ trendChartUpdates (savePreferences c) = trendChartUpdates c
  /\ families (savePreferences c) = families c
  /\ modelTree (savePreferences c) = modelTree c
  /\ storageThrows (savePreferences c) = storageThrows c.
Proof.
  unfold savePreferences.
  destruct (storageThrows c) eqn:Hthrows; simpl; repeat split; exact Hthrows.
Qed.

(** X13: with no family selected twice, [toggleFamily] flips the selection
    of the family, leaves the selection of every other family and of every
    model as it was, keeps the array free of duplicates, asks for exactly one
    chart update, and, when the storage works, stores the new preferences.
    Toggling twice gives the same selected families back, in the same order
    when the family was not selected to begin with. *)
Theorem toggleFamily_flips (c : Dashboard) (family : string) :
  List.NoDup (selectedFamilies c) ->
  isFamilySelected (toggleFamily c family) family = negb (isFamilySelected c family)
  /\ (forall other, other <> family ->
        isFamilySelected (toggleFamily c family) other = isFamilySelected c other)
  /\ List.NoDup (selectedFamilies (toggleFamily c family))
  /\ selectedModels (toggleFamily c family) = selectedModels c
  /\ trendChartUpdates (toggleFamily c family) = S (trendChartUpdates c)
  /\ (storageThrows c = false ->
      dashboard_chart_prefs (toggleFamily c family) =
      Some {| prefs_timeRange := Some (timeRange c);
              prefs_displayMode := Some (displayMode c);
              prefs_selectedFamilies := Some (selectedFamilies (toggleFamily c family));
              prefs_selectedModels := Some (selectedModels c) |})
  /\ Permutation (selectedFamilies (toggleFamily (toggleFamily c family) family))
       (selectedFamilies c)
  /\ (isFamilySelected c family = false ->
      selectedFamilies (toggleFamily (toggleFamily c family) family)
      = selectedFamilies c).
Proof.
  intros Hnd.
  assert (Hsel : forall d f,
            selectedFamilies (toggleFamily d f) = toggleIn (selectedFamilies d) f).
  { intros d f. unfold toggleFamily. simpl.
    now rewrite (proj1 (savePreferences_selection _)). }
  destruct (toggleIn_flips (selectedFamilies c) family Hnd) as [Hflip Hnd'].
  destruct (toggleIn_twice (selectedFamilies c) family Hnd) as [Hperm Hsame].
  unfold isFamilySelected. rewrite !Hsel.
  repeat split; try assumption.
  - intros other Hne. apply arrayIncludes_ext. apply In_toggleIn_other. congruence.
  - unfold toggleFamily. simpl.
    now rewrite (proj1 (proj2 (savePreferences_selection _))).
  - unfold toggleFamily. simpl.
    now rewrite (proj1 (proj2 (proj2 (savePreferences_selection _)))).
  - intros Hworks. unfold toggleFamily, savePreferences. simpl. now rewrite Hworks.
Qed.

(** X13, selecting a second family next to claude. *)
Lemma toggleFamily_flips_witness :
  isFamilySelected
    (toggleFamily
       {| timeRange := "24h"; displayMode := "model";
          selectedFamilies := ["claude"]; selectedModels := ∅;
          showModelFilter := false; showTimeRangeDropdown := false;
          showDisplayModeDropdown := false;
          families := ["claude"; "gemini"]; modelTree := ∅;
          storageThrows := false; dashboard_chart_prefs := None;
          trendChartUpdates := 0 |} "gemini") "gemini" = true.
Proof.
  refine (proj1 (toggleFamily_flips _ "gemini" _)).
  simpl. repeat constructor. simpl. tauto.
Defined.

Lemma inheritedName_not_proto (family : string) :
  inheritedName family = false -> String.eqb family "__proto__" = false.
Proof.
  intros Hord. destruct (String.eqb_spec family "__proto__") as [-> | _];
    [discriminate Hord | reflexivity].
Qed.

Lemma getProperty_own (obj : gmap string (list string)) (key : string)
  (models : list string) :
  obj !! key = Some models -> getProperty obj key = OwnArray models.
Proof. intros H. unfold getProperty. now rewrite H. Qed.

Lemma getProperty_ordinary (obj : gmap string (list string)) (key : string) :
  inheritedName key = false ->
  getProperty obj key = match obj !! key with
                        | Some models => OwnArray models
                        | None => Undefined
                        end.
Proof. intros H. unfold getProperty. now rewrite H. Qed.

Lemma getProperty_inherited (obj : gmap string (list string)) (key : string) :
  getProperty obj key = InheritedValue <->
  inheritedName key = true /\ obj !! key = None.
Proof.
  unfold getProperty. destruct (obj !! key); [|destruct (inheritedName key)];
    split; try discriminate; try tauto; intros [? ?]; discriminate.
Qed.

Lemma isModelSelected_hasModel (c : Dashboard) (family model : string) :
  inheritedName family = false \/ is_Some (selectedModels c !! family) ->
  isModelSelected c family model = Some (hasModel c family model).
Proof.
  unfold isModelSelected, hasModel, getProperty.
  intros [Hord | [models Hown]].
  - rewrite Hord. now destruct (selectedModels c !! family).
  - now rewrite Hown.
Qed.

Lemma toggleEntry_selection (c : Dashboard) (family model : string)
  (models : list string) :
  selectedModels (toggleEntry c family models model)
  = <[family := toggleIn models model]> (selectedModels c)
  /\ selectedFamilies (toggleEntry c family models model) = selectedFamilies c
  /\ trendChartUpdates (toggleEntry c family models model)
     = S (trendChartUpdates c).
Proof.
  unfold toggleEntry. simpl.
  destruct (savePreferences_selection
              (withSelection (selectedFamilies c)
                 (<[family := toggleIn models model]> (selectedModels c)) c))
    as (Hf & Hm & Hu & _).
  now rewrite Hf, Hm, Hu.
Qed.

(** What [toggleModel] does when the lookup does not end at an inherited
    value: the entry, or the empty array, is toggled. *)
Lemma toggleModel_returns (c : Dashboard) (family model : string) :
  inheritedName family = false \/ is_Some (selectedModels c !! family) ->
  toggleModel c family model
  = returned (toggleEntry c family (default [] (selectedModels c !! family)) model).
Proof.
  unfold toggleModel, getProperty. intros [Hord | [models Hown]].
  - rewrite Hord. now destruct (selectedModels c !! family).
  - now rewrite Hown.
Qed.

(** X14: for a family that has an entry, or whose name is not the name of a
    property every object inherits, and whose entry holds no model twice,
    [toggleModel] returns, flips the selection of that model in that family,
    creating the entry if the family had none, and leaves every other model
    of every family, and the selected families themselves, as they were:
    selecting a model does not select its family.  For a family without an
    entry whose name is the name of an inherited property ([constructor],
    [toString], ...) both [toggleModel] and [isModelSelected] throw, and
    [toggleModel] leaves the component as it was. *)
Theorem toggleModel_flips (c : Dashboard) (family model : string) :
  (inheritedName family = false \/ is_Some (selectedModels c !! family) ->
   List.NoDup (default [] (selectedModels c !! family)) ->
   threw (toggleModel c family model) = false
   /\ newPrototype (toggleModel c family model) = None
   /\ (exists selected,
         isModelSelected c family model = Some selected
         /\ isModelSelected (component (toggleModel c family model)) family model
            = Some (negb selected))
   /\ (forall family' model', (family', model') <> (family, model) ->
         isModelSelected (component (toggleModel c family model)) family' model'
         = isModelSelected c family' model')
   /\ is_Some (selectedModels (component (toggleModel c family model)) !! family)
   /\ selectedFamilies (component (toggleModel c family model)) = selectedFamilies c
   /\ trendChartUpdates (component (toggleModel c family model))
      = S (trendChartUpdates c))
  /\ (inheritedName family = true -> selectedModels c !! family = None ->
      toggleModel c family model = thrown c
      /\ isModelSelected c family model = None).
Proof.
  split.
  - intros Hfam Hnd. rewrite (toggleModel_returns _ _ _ Hfam).
    unfold returned. cbn [component threw newPrototype].
    destruct (toggleEntry_selection c family model
                (default [] (selectedModels c !! family))) as (Hsel & Hf & Hu).
    destruct (toggleIn_flips _ model Hnd) as [Hflip _].
    split; [reflexivity|]. split; [reflexivity|].
    split; [|split; [|split; [|split]]].
    + exists (hasModel c family model).
      split; [now apply isModelSelected_hasModel|].
      unfold isModelSelected. rewrite Hsel.
      rewrite (getProperty_own _ _ _ (lookup_insert_eq _ _ _)), Hflip.
      unfold hasModel. now destruct (selectedModels c !! family).
    + intros family' model' Hne. unfold isModelSelected, getProperty. rewrite Hsel.
      destruct (decide (family = family')) as [<- | Hf'].
      * rewrite lookup_insert_eq.
        assert (Hm : model <> model') by congruence.
        assert (Hother : arrayIncludes
                           (toggleIn (default [] (selectedModels c !! family)) model)
                           model'
                         = arrayIncludes (default [] (selectedModels c !! family))
                             model').
        { apply arrayIncludes_ext. now apply In_toggleIn_other. }
        rewrite Hother. destruct Hfam as [Hord | [models Hown]].
        -- rewrite Hord. now destruct (selectedModels c !! family).
        -- now rewrite Hown.
      * now rewrite lookup_insert_ne.
    + rewrite Hsel, lookup_insert_eq. eauto.
    + exact Hf.
    + exact Hu.
  - intros Hinh Hnone. unfold toggleModel, isModelSelected, getProperty.
    now rewrite Hnone, Hinh.
Qed.

(** X14, selecting a model of a family that had no entry. *)
Lemma toggleModel_flips_witness :
  isModelSelected
    (component
       (toggleModel
          {| timeRange := "24h"; displayMode := "model";
             selectedFamilies := []; selectedModels := ∅;
             showModelFilter := false; showTimeRangeDropdown := false;
             showDisplayModeDropdown := false;
             families := ["claude"]; modelTree := ∅;
             storageThrows := false; dashboard_chart_prefs := None;
             trendChartUpdates := 0 |} "claude" "claude-sonnet"))
    "claude" "claude-sonnet" = Some true.
Proof.
  set (c := {| timeRange := "24h"; displayMode := "model";
              selectedFamilies := []; selectedModels := ∅;
              showModelFilter := false; showTimeRangeDropdown := false;
              showDisplayModeDropdown := false;
              families := ["claude"]; modelTree := ∅;
              storageThrows := false; dashboard_chart_prefs := None;
              trendChartUpdates := 0 |}).
  assert (Hnd : List.NoDup (default [] (selectedModels c !! "claude")))
    by (vm_compute; constructor).
  destruct (proj1 (toggleModel_flips c "claude" "claude-sonnet")
              (or_introl eq_refl) Hnd)
    as (_ & _ & (selected & Hbefore & Hafter) & _).
  rewrite Hafter. injection Hbefore as <-. reflexivity.
Defined.

(** A family named like an inherited property: the toggle throws. *)
Example toggleModel_constructor (c : Dashboard) (model : string) :
  selectedModels c = ∅ ->
  toggleModel c "constructor" model = thrown c
  /\ isModelSelected c "constructor" model = None.
Proof.
  intros Hempty. unfold toggleModel, isModelSelected, getProperty.
  rewrite Hempty, lookup_empty. now split.
Qed.

(** ** Selecting everything *)

Lemma selectTreeOrdinary_lookup (tree : gmap string (list string)) (fams : list string)
  (sm : gmap string (list string)) (family : string) :
  selectTreeOrdinary tree fams sm !! family =
  if arrayIncludes fams family then Some (default [] (tree !! family))
  else sm !! family.
Proof.
  unfold selectTreeOrdinary. revert sm.
  induction fams as [|g t IH]; intros sm; simpl; [reflexivity|].
  rewrite IH. destruct (arrayIncludes t family); [now rewrite orb_true_r|].
  rewrite orb_false_r.
  destruct (String.eqb_spec family g) as [-> | Hne].
  - now rewrite lookup_insert_eq.
  - rewrite lookup_insert_ne by congruence. reflexivity.
Qed.

Lemma assignEntry_ordinary (st : gmap string (list string) * option (list string))
  (family : string) (models : list string) :
  inheritedName family = false ->
  assignEntry st family models = (<[family := models]> (fst st), snd st).
Proof.
  intros Hord. unfold assignEntry.
  now rewrite (inheritedName_not_proto _ Hord).
Qed.

Lemma selectTree_ordinary (tree : gmap string (list string)) (fams : list string)
  (sm : gmap string (list string)) (proto : option (list string)) :
  (forall family, In family fams -> inheritedName family = false) ->
  selectTree tree fams (sm, proto)
  = ((selectTreeOrdinary tree fams sm, proto), false).
Proof.
  unfold selectTreeOrdinary. revert sm.
  induction fams as [|g t IH]; intros sm Hord; simpl; [reflexivity|].
  assert (Hg : inheritedName g = false) by (apply Hord; now left).
  rewrite (getProperty_ordinary _ _ Hg).
  destruct (tree !! g) as [models|]; rewrite (assignEntry_ordinary _ _ _ Hg);
    simpl; apply IH; intros f Hf; apply Hord; now right.
Qed.

(** The loop throws as soon as the tree has an inherited value for one of
    the families. *)
Lemma selectTree_throws (tree : gmap string (list string)) (fams : list string)
  (st : gmap string (list string) * option (list string)) (family : string) :
  In family fams -> getProperty tree family = InheritedValue ->
  snd (selectTree tree fams st) = true.
Proof.
  revert st. induction fams as [|g t IH]; intros st; simpl; [tauto|].
  intros [-> | Hin] Hinh.
  - now rewrite Hinh.
  - destruct (getProperty tree g); [now apply IH | reflexivity | now apply IH].
Qed.

Lemma selectAll_ordinary (c : Dashboard) :
  (forall family, In family (families c) -> inheritedName family = false) ->
  selectAll c
  = returned (updateTrendChart (savePreferences
      (withSelection (families c)
         (selectTreeOrdinary (modelTree c) (families c) (selectedModels c)) c))).
Proof.
  intros Hord. unfold selectAll. cbv zeta.
  now rewrite (selectTree_ordinary _ _ _ _ Hord).
Qed.

(** X15: when no family of the component is named like a property every
    object inherits, [selectAll] returns, and afterwards the selected
    families are exactly the component's families, and for each of them the
    selected models are exactly the models of the tree; entries of families
    that are not among the component's families are left as they were, and
    the chart is updated once.  When the tree has no entry for a family
    whose name is the name of an inherited property, [selectAll] throws
    after it has copied the families: nothing is saved and the chart is not
    updated.  After [deselectAll] no family and no model is selected. *)
Theorem selectAll_deselectAll (c : Dashboard) :
  ((forall family, In family (families c) -> inheritedName family = false) ->
   threw (selectAll c) = false
   /\ newPrototype (selectAll c) = None
   /\ (forall family,
         isFamilySelected (component (selectAll c)) family = true
         <-> In family (families c))
   /\ (forall family model, In family (families c) ->
         exists selected,
           isModelSelected (component (selectAll c)) family model = Some selected
           /\ (selected = true <-> In model (default [] (modelTree c !! family))))
   /\ (forall family model, ~ In family (families c) ->
         isModelSelected (component (selectAll c)) family model
         = isModelSelected c family model)
   /\ trendChartUpdates (component (selectAll c)) = S (trendChartUpdates c))
  /\ (forall family, In family (families c) ->
        inheritedName family = true -> modelTree c !! family = None ->
        threw (selectAll c) = true
        /\ selectedFamilies (component (selectAll c)) = families c
        /\ dashboard_chart_prefs (component (selectAll c)) = dashboard_chart_prefs c
        /\ trendChartUpdates (component (selectAll c)) = trendChartUpdates c)
  /\ (forall family model,
        isFamilySelected (deselectAll c) family = false
        /\ isModelSelected (deselectAll c) family model
           = if inheritedName family then None else Some false).
Proof.
  split; [|split].
  - intros Hord. rewrite (selectAll_ordinary _ Hord). simpl.
    set (c1 := withSelection (families c)
                 (selectTreeOrdinary (modelTree c) (families c) (selectedModels c)) c).
    destruct (savePreferences_selection c1) as (Hf & Hm & Hu & _).
    split; [reflexivity|]. split; [reflexivity|].
    split; [|split; [|split]].
    + intros family. unfold isFamilySelected. simpl. rewrite Hf.
      apply arrayIncludes_In.
    + intros family model Hin.
      exists (arrayIncludes (default [] (modelTree c !! family)) model).
      split; [|apply arrayIncludes_In].
      unfold isModelSelected. simpl. rewrite Hm. unfold c1. simpl.
      apply arrayIncludes_In in Hin.
      erewrite getProperty_own; [reflexivity|].
      now rewrite selectTreeOrdinary_lookup, Hin.
    + intros family model Hnot. unfold isModelSelected, getProperty. simpl.
      rewrite Hm. unfold c1. simpl.
      rewrite selectTreeOrdinary_lookup.
      apply arrayIncludes_not_In in Hnot. now rewrite Hnot.
    + now rewrite Hu.
  - intros family Hin Hinh Hnone.
    assert (Hthrow : snd (selectTree (modelTree c) (families c)
                            (selectedModels c, None)) = true).
    { apply (selectTree_throws _ _ _ family Hin).
      now apply getProperty_inherited. }
    unfold selectAll. cbv zeta. rewrite Hthrow. simpl. now repeat split.
  - intros family model. unfold isFamilySelected, isModelSelected, getProperty,
      deselectAll. simpl.
    rewrite (proj1 (savePreferences_selection _)),
      (proj1 (proj2 (savePreferences_selection _))). simpl.
    rewrite lookup_empty. split; [reflexivity|].
    now destruct (inheritedName family).
Qed.

(** X15, on a component with two families, of which the tree knows one. *)
Lemma selectAll_deselectAll_witness :
  isFamilySelected
    (component
       (selectAll
          {| timeRange := "24h"; displayMode := "model";
             selectedFamilies := []; selectedModels := ∅;
             showModelFilter := false; showTimeRangeDropdown := false;
             showDisplayModeDropdown := false;
             families := ["claude"; "gemini"];
             modelTree := {[ "claude"%string := ["claude-sonnet"%string] ]};
             storageThrows := false; dashboard_chart_prefs := None;
             trendChartUpdates := 0 |})) "gemini" = true.
Proof.
  refine (proj2 (proj1 (proj2 (proj2 (proj1 (selectAll_deselectAll _) _))) "gemini") _).
  - simpl. intros family [<- | [<- | []]]; reflexivity.
  - simpl. tauto.
Defined.

(** A tree that holds an entry of its own under [__proto__] (as a parsed
    JSON document can): [selectAll] returns, but the assignment runs the
    setter, so [selectedModels] gets no entry and inherits from the array. *)
Example selectAll_proto :
  let c := {| timeRange := "24h"; displayMode := "model";
              selectedFamilies := []; selectedModels := ∅;
              showModelFilter := false; showTimeRangeDropdown := false;
              showDisplayModeDropdown := false;
              families := ["__proto__"];
              modelTree := {[ "__proto__"%string := ["m"%string] ]};
              storageThrows := false; dashboard_chart_prefs := None;
              trendChartUpdates := 0 |} in
  threw (selectAll c) = false
  /\ newPrototype (selectAll c) = Some ["m"]
  /\ selectedModels (component (selectAll c)) = ∅.
Proof. vm_compute. repeat split. Qed.

(** ** Selecting what is new *)

Lemma In_addIfMissing (xs : list string) (x y : string) :
  In y (addIfMissing xs x) <-> In y xs \/ y = x.
Proof.
  unfold addIfMissing. destruct (arrayIncludes xs x) eqn:Hx.
  - apply arrayIncludes_In in Hx. split; [now left | intros [H | ->]; assumption].
  - rewrite in_app_iff. simpl. intuition congruence.
Qed.

Lemma In_fold_addIfMissing (ms xs : list string) (y : string) :
  In y (fold_left addIfMissing ms xs) <-> In y xs \/ In y ms.
Proof.
  revert xs. induction ms as [|m t IH]; intros xs; simpl; [tauto|].
  rewrite IH, In_addIfMissing. intuition congruence.
Qed.

Lemma fold_addIfMissing_stable (ms xs : list string) :
  (forall m, In m ms -> In m xs) -> fold_left addIfMissing ms xs = xs.
Proof.
  induction ms as [|m t IH]; intros Hall; simpl; [reflexivity|].
  assert (Hm : addIfMissing xs m = xs).
  { unfold addIfMissing.
    now rewrite (proj2 (arrayIncludes_In xs m) (Hall m (or_introl eq_refl))). }
  rewrite Hm. apply IH. intros m' Hm'. apply Hall. now right.
Qed.

Section AutoSelect.

Variable tree : gmap string (list string).

Lemma autoSelectFamilyOrdinary_covers st family :
  covered tree (autoSelectFamilyOrdinary tree st family) family.
Proof.
  unfold covered, autoSelectFamilyOrdinary. simpl. split.
  - apply In_addIfMissing. now right.
  - eexists. split; [apply lookup_insert_eq|].
    intros model Hmodel. apply In_fold_addIfMissing. now right.
Qed.

Lemma autoSelectFamilyOrdinary_keeps st family other :
  covered tree st other -> covered tree (autoSelectFamilyOrdinary tree st family) other.
Proof.
  intros [Hin (models & Hlook & Hall)].
  unfold covered, autoSelectFamilyOrdinary. simpl. split.
  - apply In_addIfMissing. now left.
  - destruct (decide (family = other)) as [-> | Hne].
    + eexists. split; [apply lookup_insert_eq|].
      intros model Hmodel. apply In_fold_addIfMissing. now right.
    + exists models. split; [now rewrite lookup_insert_ne | exact Hall].
Qed.

Lemma autoSelectFamilyOrdinary_stable st family :
  covered tree st family -> autoSelectFamilyOrdinary tree st family = st.
Proof.
  destruct st as [sf sm]. intros [Hin (models & Hlook & Hall)].
  unfold autoSelectFamilyOrdinary. simpl in *. f_equal.
  - unfold addIfMissing. now rewrite (proj2 (arrayIncludes_In sf family) Hin).
  - rewrite Hlook. simpl. rewrite fold_addIfMissing_stable by exact Hall.
    now apply insert_id.
Qed.

Lemma fold_autoSelectOrdinary_keeps (fams : list string) st other :
  covered tree st other ->
  covered tree (fold_left (autoSelectFamilyOrdinary tree) fams st) other.
Proof.
  revert st. induction fams as [|f t IH]; intros st Hc; simpl; [exact Hc|].
  apply IH. now apply autoSelectFamilyOrdinary_keeps.
Qed.

Lemma fold_autoSelectOrdinary_covers (fams : list string) st family :
  In family fams ->
  covered tree (fold_left (autoSelectFamilyOrdinary tree) fams st) family.
Proof.
  revert st. induction fams as [|f t IH]; intros st; simpl; [tauto|].
  intros [-> | Hin].
  - apply fold_autoSelectOrdinary_keeps, autoSelectFamilyOrdinary_covers.
  - now apply IH.
Qed.

Lemma fold_autoSelectOrdinary_stable (fams : list string) st :
  (forall family, In family fams -> covered tree st family) ->
  fold_left (autoSelectFamilyOrdinary tree) fams st = st.
Proof.
  induction fams as [|f t IH]; intros Hall; simpl; [reflexivity|].
  rewrite autoSelectFamilyOrdinary_stable by (apply Hall; now left).
  apply IH. intros g Hg. apply Hall. now right.
Qed.

Lemma fold_autoSelectOrdinary_grows (fams : list string) st :
  (forall family, In family (fst st) ->
     In family (fst (fold_left (autoSelectFamilyOrdinary tree) fams st)))
  /\ (forall family models model,
        snd st !! family = Some models -> In model models ->
        exists models',
          snd (fold_left (autoSelectFamilyOrdinary tree) fams st) !! family = Some models'
          /\ In model models').
Proof.
  revert st. induction fams as [|f t IH]; intros st; simpl.
  - split; [tauto | eauto].
  - destruct (IH (autoSelectFamilyOrdinary tree st f)) as [IHf IHm]. split.
    + intros family Hin. apply IHf. simpl. apply In_addIfMissing. now left.
    + intros family models model Hlook Hin.
      destruct (decide (f = family)) as [-> | Hne].
      * eapply IHm; [simpl; apply lookup_insert_eq|].
        apply In_fold_addIfMissing. left. now rewrite Hlook.
      * eapply IHm; [simpl; rewrite lookup_insert_ne by exact Hne; exact Hlook|].
        exact Hin.
Qed.

End AutoSelect.

Lemma hasModel_true (c : Dashboard) (family model : string) :
  hasModel c family model = true <->
  exists models, selectedModels c !! family = Some models /\ In model models.
Proof.
  unfold hasModel. destruct (selectedModels c !! family) as [models|].
  - rewrite arrayIncludes_In. split; [eauto | now intros (ms & [= <-] & Hin)].
  - split; [discriminate | now intros (ms & Hms & _)].
Qed.

(** The selection [autoSelectNew] ends with. *)
Lemma autoSelectNewOrdinary_selection (c : Dashboard) :
  exists st,
    selectedFamilies (autoSelectNewOrdinary c) = fst st
    /\ selectedModels (autoSelectNewOrdinary c) = snd st
    /\ (forall family, In family (families c) -> covered (modelTree c) st family)
    /\ (forall family, In family (selectedFamilies c) -> In family (fst st))
    /\ (forall family models model,
          selectedModels c !! family = Some models -> In model models ->
          exists models', snd st !! family = Some models' /\ In model models').
Proof.
  unfold autoSelectNewOrdinary.
  destruct (Nat.eqb (length (selectedFamilies c)) 0
            && Nat.eqb (size (selectedModels c)) 0) eqn:Hcond.
  - apply andb_true_iff in Hcond as [Hf Hm].
    apply Nat.eqb_eq in Hf, Hm. apply length_zero_iff_nil in Hf.
    apply map_size_empty_iff in Hm.
    exists (families c, selectTreeOrdinary (modelTree c) (families c) (selectedModels c)).
    rewrite (proj1 (savePreferences_selection _)),
      (proj1 (proj2 (savePreferences_selection _))). simpl.
    split; [reflexivity|]. split; [reflexivity|]. split; [|split].
    + intros family Hin. split; [exact Hin|]. simpl.
      eexists. split; [|intros model Hmodel; exact Hmodel].
      rewrite selectTreeOrdinary_lookup.
      now rewrite (proj2 (arrayIncludes_In _ _) Hin).
    + rewrite Hf. intros family [].
    + rewrite Hm. intros family models model Hlook. now rewrite lookup_empty in Hlook.
  - exists (fold_left (autoSelectFamilyOrdinary (modelTree c)) (families c)
              (selectedFamilies c, selectedModels c)).
    simpl. split; [reflexivity|]. split; [reflexivity|]. split; [|split].
    + intros family Hin. now apply fold_autoSelectOrdinary_covers.
    + apply (fold_autoSelectOrdinary_grows (modelTree c) (families c)
               (selectedFamilies c, selectedModels c)).
    + apply (fold_autoSelectOrdinary_grows (modelTree c) (families c)
               (selectedFamilies c, selectedModels c)).
Qed.

Lemma withSelection_same (d : Dashboard) :
  withSelection (selectedFamilies d) (selectedModels d) d = d.
Proof. now destruct d. Qed.

Lemma savePreferences_twice (d : Dashboard) :
  savePreferences (savePreferences d) = savePreferences d.
Proof.
  unfold savePreferences at 2.
  destruct (storageThrows d) eqn:Hthrows; unfold savePreferences; simpl;
    now rewrite Hthrows.
Qed.

(** A component in which everything is selected already, and whose storage
    holds its preferences if it would be saved, is left as it is. *)
Lemma autoSelectNewOrdinary_fixed (d : Dashboard) :
  (forall family, In family (families d) ->
     covered (modelTree d) (selectedFamilies d, selectedModels d) family) ->
  (Nat.eqb (length (selectedFamilies d)) 0 && Nat.eqb (size (selectedModels d)) 0
   = true -> savePreferences d = d) ->
  autoSelectNewOrdinary d = d.
Proof.
  intros Hcov Hsaved. unfold autoSelectNewOrdinary.
  rewrite (fold_autoSelectOrdinary_stable _ _ _ Hcov). cbn [fst snd].
  destruct (Nat.eqb (length (selectedFamilies d)) 0
            && Nat.eqb (size (selectedModels d)) 0) eqn:Hcond;
    [|apply withSelection_same].
  pose proof Hcond as Hboth.
  apply andb_true_iff in Hcond as [Hf _].
  apply Nat.eqb_eq, length_zero_iff_nil in Hf.
  assert (Hfams : families d = []).
  { destruct (families d) as [|f fams] eqn:Hfd; [reflexivity|].
    destruct (Hcov f (or_introl eq_refl)) as [Hin _]. simpl in Hin.
    rewrite Hf in Hin. destruct Hin. }
  rewrite Hfams. simpl. rewrite <- Hf at 1. rewrite withSelection_same.
  now apply Hsaved.
Qed.

Lemma autoSelectNewOrdinary_twice (c : Dashboard) :
  autoSelectNewOrdinary (autoSelectNewOrdinary c) = autoSelectNewOrdinary c.
Proof.
  destruct (autoSelectNewOrdinary_selection c) as (st & Hf & Hm & Hcov & _ & _).
  assert (Hkeep : families (autoSelectNewOrdinary c) = families c
                  /\ modelTree (autoSelectNewOrdinary c) = modelTree c).
  { unfold autoSelectNewOrdinary.
    destruct (Nat.eqb (length (selectedFamilies c)) 0
              && Nat.eqb (size (selectedModels c)) 0); [|now split].
    destruct (savePreferences_selection
                (withSelection (families c)
                   (selectTreeOrdinary (modelTree c) (families c) (selectedModels c)) c))
      as (_ & _ & _ & Hfa & Htr & _).
    now rewrite Hfa, Htr. }
  destruct Hkeep as [Hfams Htree].
  apply autoSelectNewOrdinary_fixed.
  - rewrite Hfams, Htree, Hf, Hm. intros family Hin.
    destruct st as [sf sm]. now apply Hcov.
  - clear Hf Hm Hcov st Hfams Htree. unfold autoSelectNewOrdinary.
    destruct (Nat.eqb (length (selectedFamilies c)) 0
              && Nat.eqb (size (selectedModels c)) 0) eqn:Hcond;
      [intros _; apply savePreferences_twice|].
    cbn [selectedFamilies selectedModels withSelection].
    destruct (families c) as [|f fams] eqn:Hfc.
    + simpl. now rewrite Hcond.
    + destruct (fold_autoSelectOrdinary_covers (modelTree c) (f :: fams)
                  (selectedFamilies c, selectedModels c) f (or_introl eq_refl))
        as [Hsel _].
      destruct (fst (fold_left (autoSelectFamilyOrdinary (modelTree c)) (f :: fams)
                       (selectedFamilies c, selectedModels c)));
        [destruct Hsel | discriminate].
Qed.

Lemma autoSelectFamily_ordinary (tree : gmap string (list string))
  (st : list string * gmap string (list string)) (family : string) :
  inheritedName family = false ->
  autoSelectFamily tree st family = (autoSelectFamilyOrdinary tree st family, false).
Proof.
  intros Hord. unfold autoSelectFamily, autoSelectFamilyOrdinary. cbv zeta.
  rewrite !(getProperty_ordinary _ _ Hord).
  destruct (snd st !! family) as [selected|] eqn:Hsel;
    destruct (tree !! family) as [models|] eqn:Htree;
    cbn [default]; rewrite ?Hsel, ?lookup_insert_eq.
  - reflexivity.
  - simpl. now rewrite insert_id.
  - now rewrite insert_insert_eq.
  - reflexivity.
Qed.

Lemma autoSelectLoop_ordinary (tree : gmap string (list string))
  (fams : list string) (st : list string * gmap string (list string)) :
  (forall family, In family fams -> inheritedName family = false) ->
  autoSelectLoop tree fams st
  = (fold_left (autoSelectFamilyOrdinary tree) fams st, false).
Proof.
  revert st. induction fams as [|g t IH]; intros st Hord; simpl; [reflexivity|].
  rewrite autoSelectFamily_ordinary by (apply Hord; now left). simpl.
  apply IH. intros f Hf. apply Hord. now right.
Qed.

Lemma autoSelectNew_ordinary (c : Dashboard) :
  (forall family, In family (families c) -> inheritedName family = false) ->
  autoSelectNew c = returned (autoSelectNewOrdinary c).
Proof.
  intros Hord. unfold autoSelectNew, autoSelectNewOrdinary. cbv zeta.
  rewrite (selectTree_ordinary _ _ _ _ Hord), (autoSelectLoop_ordinary _ _ _ Hord).
  now destruct (Nat.eqb (length (selectedFamilies c)) 0
                && Nat.eqb (size (selectedModels c)) 0).
Qed.

Lemma autoSelectNewOrdinary_families (c : Dashboard) :
  families (autoSelectNewOrdinary c) = families c.
Proof.
  unfold autoSelectNewOrdinary.
  destruct (Nat.eqb (length (selectedFamilies c)) 0
            && Nat.eqb (size (selectedModels c)) 0); [|reflexivity].
  now rewrite (proj1 (proj2 (proj2 (proj2 (savePreferences_selection _))))).
Qed.

Lemma isModelSelected_true (c : Dashboard) (family model : string) :
  isModelSelected c family model = Some true <->
  exists models, selectedModels c !! family = Some models /\ In model models.
Proof.
  unfold isModelSelected, getProperty.
  destruct (selectedModels c !! family) as [models|].
  - split.
    + intros [= Hin]. apply arrayIncludes_In in Hin. eauto.
    + intros (ms & [= <-] & Hin). f_equal. now apply arrayIncludes_In.
  - split.
    + destruct (inheritedName family); discriminate.
    + now intros (ms & Hms & _).
Qed.

(** X16: when no family of the component is named like a property every
    object inherits, [autoSelectNew] returns, and afterwards every family of
    the component is selected, with every model the tree lists for it, also
    one the user had deselected; whatever was selected before still is; and
    running it again changes nothing, neither in the component nor in the
    storage. *)
Theorem autoSelectNew_selects_everything (c : Dashboard) :
  (forall family, In family (families c) -> inheritedName family = false) ->
  threw (autoSelectNew c) = false
  /\ newPrototype (autoSelectNew c) = None
  /\ (forall family, In family (families c) ->
        isFamilySelected (component (autoSelectNew c)) family = true
        /\ forall model, In model (default [] (modelTree c !! family)) ->
             isModelSelected (component (autoSelectNew c)) family model = Some true)
  /\ (forall family, isFamilySelected c family = true ->
        isFamilySelected (component (autoSelectNew c)) family = true)
  /\ (forall family model, isModelSelected c family model = Some true ->
        isModelSelected (component (autoSelectNew c)) family model = Some true)
  /\ autoSelectNew (component (autoSelectNew c)) = autoSelectNew c.
Proof.
  intros Hord. rewrite (autoSelectNew_ordinary _ Hord). simpl.
  destruct (autoSelectNewOrdinary_selection c) as (st & Hf & Hm & Hcov & Hgf & Hgm).
  split; [reflexivity|]. split; [reflexivity|].
  split; [|split; [|split]].
  - intros family Hin. destruct (Hcov family Hin) as [Hfam (models & Hlook & Hall)].
    split.
    + unfold isFamilySelected. rewrite Hf. now apply arrayIncludes_In.
    + intros model Hmodel. apply isModelSelected_true. rewrite Hm. eauto.
  - unfold isFamilySelected. intros family Hsel. rewrite Hf.
    apply arrayIncludes_In, Hgf. now apply arrayIncludes_In.
  - intros family model Hsel. apply isModelSelected_true in Hsel as (ms & Hlook & Hin).
    apply isModelSelected_true. rewrite Hm. eauto.
  - rewrite autoSelectNew_ordinary
      by (rewrite autoSelectNewOrdinary_families; exact Hord).
    now rewrite autoSelectNewOrdinary_twice.
Qed.

(** X16, for a family the user had deselected while another was selected. *)
Lemma autoSelectNew_selects_everything_witness :
  isFamilySelected
    (component
       (autoSelectNew
          {| timeRange := "24h"; displayMode := "model";
             selectedFamilies := ["claude"];
             selectedModels := {[ "claude"%string := ["claude-sonnet"%string] ]};
             showModelFilter := false; showTimeRangeDropdown := false;
             showDisplayModeDropdown := false;
             families := ["claude"; "gemini"];
             modelTree := {[ "claude"%string := ["claude-sonnet"%string] ]};
             storageThrows := false; dashboard_chart_prefs := None;
             trendChartUpdates := 0 |})) "gemini" = true.
Proof.
  refine (proj1 (proj1 (proj2 (proj2 (autoSelectNew_selects_everything _ _)))
                   "gemini" _)).
  - simpl. intros family [<- | [<- | []]]; reflexivity.
  - simpl. tauto.
Defined.

(** A family named like an inherited property, listed by the tree: the
    second loop pushes the family and throws at its first model. *)
Example autoSelectNew_constructor :
  let c := {| timeRange := "24h"; displayMode := "model";
              selectedFamilies := ["claude"];
              selectedModels := {[ "claude"%string := ["claude-sonnet"%string] ]};
              showModelFilter := false; showTimeRangeDropdown := false;
              showDisplayModeDropdown := false;
              families := ["constructor"; "claude"];
              modelTree := {[ "constructor"%string := ["m"%string] ]};
              storageThrows := false; dashboard_chart_prefs := None;
              trendChartUpdates := 0 |} in
  threw (autoSelectNew c) = true
  /\ selectedFamilies (component (autoSelectNew c)) = ["claude"; "constructor"]
  /\ selectedModels (component (autoSelectNew c)) = selectedModels c.
Proof. vm_compute. repeat split. Qed.

(** ** Saving and loading *)

(** X17: what [savePreferences] stored is what [loadPreferences] puts back,
    whatever the component holds when it loads: the selected families and
    models exactly, the time range and the display mode unless they were
    the empty string, which comes back as the default; the other fields of
    the loading component stay.  When the storage throws, saving and loading
    both leave everything as it is. *)
Theorem savePreferences_loadPreferences (c d : Dashboard) :
  (storageThrows c = false -> storageThrows d = false ->
   dashboard_chart_prefs d = dashboard_chart_prefs (savePreferences c) ->
   timeRange (loadPreferences d)
   = (if String.eqb (timeRange c) EmptyString then "24h" else timeRange c)
   /\ displayMode (loadPreferences d)
      = (if String.eqb (displayMode c) EmptyString then "model" else displayMode c)
   /\ selectedFamilies (loadPreferences d) = selectedFamilies c
   /\ selectedModels (loadPreferences d) = selectedModels c
   /\ families (loadPreferences d) = families d
   /\ modelTree (loadPreferences d) = modelTree d
   /\ dashboard_chart_prefs (loadPreferences d) = dashboard_chart_prefs d
   /\ trendChartUpdates (loadPreferences d) = trendChartUpdates d)
  /\ (storageThrows c = true -> savePreferences c = c /\ loadPreferences c = c)
  /\ (dashboard_chart_prefs c = None -> loadPreferences c = c).
Proof.
  split; [|split].
  - intros Hc Hd Hprefs. unfold savePreferences in Hprefs. rewrite Hc in Hprefs.
    simpl in Hprefs. unfold loadPreferences. rewrite Hd, Hprefs. simpl.
    repeat split; try assumption.
    + now destruct (timeRange c).
    + now destruct (displayMode c).
  - intros Hc. unfold savePreferences, loadPreferences. now rewrite Hc.
  - intros Hnone. unfold loadPreferences. rewrite Hnone.
    now destruct (storageThrows c).
Qed.

(** X17, saving a selection and loading it into a fresh component. *)
Lemma savePreferences_loadPreferences_witness :
  selectedFamilies
    (loadPreferences
       {| timeRange := "24h"; displayMode := "model";
          selectedFamilies := []; selectedModels := ∅;
          showModelFilter := false; showTimeRangeDropdown := false;
          showDisplayModeDropdown := false;
          families := []; modelTree := ∅; storageThrows := false;
          dashboard_chart_prefs :=
            Some {| prefs_timeRange := Some "7d"%string;
                    prefs_displayMode := Some "family"%string;
                    prefs_selectedFamilies := Some ["gemini"%string];
                    prefs_selectedModels := Some ∅ |};
          trendChartUpdates := 0 |})
  = ["gemini"].
Proof.
  exact (proj1 (proj2 (proj2 (proj1
    (savePreferences_loadPreferences
       {| timeRange := "7d"; displayMode := "family";
          selectedFamilies := ["gemini"]; selectedModels := ∅;
          showModelFilter := true; showTimeRangeDropdown := false;
          showDisplayModeDropdown := false;
          families := ["claude"; "gemini"]; modelTree := ∅;
          storageThrows := false; dashboard_chart_prefs := None;
          trendChartUpdates := 3 |}
       {| timeRange := "24h"; displayMode := "model";
          selectedFamilies := []; selectedModels := ∅;
          showModelFilter := false; showTimeRangeDropdown := false;
          showDisplayModeDropdown := false;
          families := []; modelTree := ∅; storageThrows := false;
          dashboard_chart_prefs :=
            Some {| prefs_timeRange := Some "7d"%string;
                    prefs_displayMode := Some "family"%string;
                    prefs_selectedFamilies := Some ["gemini"%string];
                    prefs_selectedModels := Some ∅ |};
          trendChartUpdates := 0 |}) eq_refl eq_refl eq_refl)))).
Defined.

(** ** The time range *)

Lemma filter_sublist_impl {A : Type} (p q : A -> bool) (l : list A) :
  (forall a, p a = true -> q a = true) ->
  sublist (List.filter p l) (List.filter q l).
Proof.
  intros Hpq. induction l as [|a t IH]; simpl; [constructor|].
  destruct (p a) eqn:Hp.
  - rewrite (Hpq a Hp). now constructor.
  - destruct (q a); [now constructor | exact IH].
Qed.

Lemma filter_sublist_all {A : Type} (p : A -> bool) (l : list A) :
  sublist (List.filter p l) l.
Proof.
  induction l as [|a t IH]; simpl; [constructor|].
  destruct (p a); now constructor.
Qed.

Lemma notBefore_earlier (c1 c2 : Z) (t : option Z) :
  c2 <= c1 -> notBefore c1 t = true -> notBefore c2 t = true.
Proof.
  destruct t as [t|]; simpl; [|discriminate].
  rewrite !Z.leb_le. lia.
Qed.

Lemma getFilteredHistoryData_entries {H : Type}
  (Date_getTime : string -> option Z) (now : Z) (range : string)
  (entries : list (string * H)) :
  getFilteredHistoryData Date_getTime now range (Some entries) =
  match getTimeRangeCutoff now range with
  | None => entries
  | Some cutoff =>
      if cutoff =? 0 then entries
      else List.filter (fun kv => notBefore cutoff (Date_getTime (fst kv))) entries
  end.
Proof.
  destruct entries as [|kv0 entries]; [|reflexivity].
  simpl. destruct (getTimeRangeCutoff now range) as [cutoff|]; [|reflexivity].
  now destruct (cutoff =? 0).
Qed.

(** X18: once the clock is more than seven days past the epoch, a wider time
    range never hides an entry that a narrower one shows: what 1h shows is
    part of what 6h shows, that of what 24h shows, that of what 7d shows; an
    unknown range shows the whole history; every range shows part of the
    history, in its order; and an entry shown under a bounded range has a
    date that parses and is not older than the range. *)
Theorem getFilteredHistoryData_widens {H : Type}
  (Date_getTime : string -> option Z) (now : Z)
  (history : option (list (string * H))) :
  7 * 24 * 60 * 60 * 1000 < now ->
  sublist (getFilteredHistoryData Date_getTime now "1h" history)
          (getFilteredHistoryData Date_getTime now "6h" history)
  /\ sublist (getFilteredHistoryData Date_getTime now "6h" history)
             (getFilteredHistoryData Date_getTime now "24h" history)
  /\ sublist (getFilteredHistoryData Date_getTime now "24h" history)
             (getFilteredHistoryData Date_getTime now "7d" history)
  /\ (forall range,
        sublist (getFilteredHistoryData Date_getTime now range history)
                (default [] history))
  /\ (forall range, getTimeRangeCutoff now range = None ->
        getFilteredHistoryData Date_getTime now range history = default [] history)
  /\ (forall range cutoff kv,
        getTimeRangeCutoff now range = Some cutoff ->
        In kv (getFilteredHistoryData Date_getTime now range history) ->
        exists t, Date_getTime (fst kv) = Some t /\ cutoff <= t).
Proof.
  intros Hnow.
  destruct history as [entries|];
    [|simpl; repeat split; try constructor; try reflexivity;
      intros; try constructor; try reflexivity; tauto].
  rewrite !getFilteredHistoryData_entries.
  setoid_rewrite getFilteredHistoryData_entries.
  cbn [default].
  assert (H1 : (now - 1 * 60 * 60 * 1000 =? 0) = false) by (apply Z.eqb_neq; lia).
  assert (H6 : (now - 6 * 60 * 60 * 1000 =? 0) = false) by (apply Z.eqb_neq; lia).
  assert (H24 : (now - 24 * 60 * 60 * 1000 =? 0) = false) by (apply Z.eqb_neq; lia).
  assert (H7 : (now - 7 * 24 * 60 * 60 * 1000 =? 0) = false) by (apply Z.eqb_neq; lia).
  unfold getTimeRangeCutoff. simpl String.eqb. cbv iota.
  rewrite H1, H6, H24, H7.
  split; [|split; [|split; [|split; [|split]]]].
  - apply filter_sublist_impl. intros a. apply notBefore_earlier. lia.
  - apply filter_sublist_impl. intros a. apply notBefore_earlier. lia.
  - apply filter_sublist_impl. intros a. apply notBefore_earlier. lia.
  - intros range.
    destruct (String.eqb range "1h"); [rewrite H1; apply filter_sublist_all|].
    destruct (String.eqb range "6h"); [rewrite H6; apply filter_sublist_all|].
    destruct (String.eqb range "24h"); [rewrite H24; apply filter_sublist_all|].
    destruct (String.eqb range "7d"); [rewrite H7; apply filter_sublist_all|].
    reflexivity.
  - intros range Hnone. now rewrite Hnone.
  - intros range cutoff kv Hcut. rewrite Hcut.
    assert (Hne : (cutoff =? 0) = false).
    { revert Hcut.
      destruct (String.eqb range "1h"); [intros [= <-]; exact H1|].
      destruct (String.eqb range "6h"); [intros [= <-]; exact H6|].
      destruct (String.eqb range "24h"); [intros [= <-]; exact H24|].
      destruct (String.eqb range "7d"); [intros [= <-]; exact H7|].
      discriminate. }
    rewrite Hne. intros Hin. apply filter_In in Hin as [_ Hkeep].
    destruct (Date_getTime (fst kv)) as [t|]; simpl in Hkeep; [|discriminate].
    exists t. split; [reflexivity | now apply Z.leb_le].
Qed.

(** X18, at a clock of ten days: the one entry of the last hour shows under
    6h. *)
Lemma getFilteredHistoryData_widens_witness :
  sublist
    (getFilteredHistoryData
       (fun iso => if String.eqb iso "1970-01-10T23:30:00.000Z"
                   then Some 862200000 else None)
       864000000 "1h"
       (Some [("1970-01-10T23:30:00.000Z"%string, 5%nat);
              ("yesterday"%string, 7%nat)]))
    (getFilteredHistoryData
       (fun iso => if String.eqb iso "1970-01-10T23:30:00.000Z"
                   then Some 862200000 else None)
       864000000 "6h"
       (Some [("1970-01-10T23:30:00.000Z"%string, 5%nat);
              ("yesterday"%string, 7%nat)])).
Proof.
  apply (getFilteredHistoryData_widens
           (fun iso => if String.eqb iso "1970-01-10T23:30:00.000Z"
                       then Some 862200000 else None)
           864000000
           (Some [("1970-01-10T23:30:00.000Z"%string, 5%nat);
                  ("yesterday"%string, 7%nat)])).
  lia.
Defined.

(** ** Colours *)





(** Beyond [2^53] the sum is rounded before the remainder is taken: for the
    gemini index [2^53 - 1] the sum [2^53 + 3] becomes [2^53 + 4], and over
    six colours the first one is read, not the sixth. *)
Example getModelColor_rounds :
  toDouble (4 + (2 ^ 53 - 1)) = 9007199254740996
  /\ getModelColor ["c1"; "c2"; "c3"; "c4"; "c5"; "c6"] "gemini" (2 ^ 53 - 1)
     = Some "c1".
Proof. split; reflexivity. Qed.

(** * Properties of the data store and of the log buffer *)

(** X20: [getModelFamily] answers claude, gemini or other and never
    unknown, so a model without a [hidden] setting is hidden exactly when
    its family is other, and a setting always wins.  For an id of ASCII
    characters, where lower-casing only turns the capitals A to Z into small
    letters, it answers claude exactly for the ids that contain claude in
    some letter case, gemini exactly for those that contain gemini but not
    claude, and other for the rest. *)
Theorem getModelFamily_classifies (String_toLowerCase : string -> string)
  (modelId : string) :
  (getModelFamily String_toLowerCase modelId = "claude"
   \/ getModelFamily String_toLowerCase modelId = "gemini"
   \/ getModelFamily String_toLowerCase modelId = "other")
  /\ getModelFamily String_toLowerCase modelId <> "unknown"
  /\ (isHiddenModel String_toLowerCase None modelId = true <->
      getModelFamily String_toLowerCase modelId = "other")
  /\ (forall hidden, isHiddenModel String_toLowerCase (Some hidden) modelId = hidden)
  /\ ((forall s, allChars isAsciiChar s = true ->
                 String_toLowerCase s = toLowerCase s) ->
      allChars isAsciiChar modelId = true ->
      (getModelFamily String_toLowerCase modelId = "claude" <->
       occurs_any_case "claude" modelId)
      /\ (getModelFamily String_toLowerCase modelId = "gemini" <->
          ~ occurs_any_case "claude" modelId /\ occurs_any_case "gemini" modelId)
      /\ (getModelFamily String_toLowerCase modelId = "other" <->
          ~ occurs_any_case "claude" modelId
          /\ ~ occurs_any_case "gemini" modelId)).
Proof.
  split; [|split; [|split; [|split]]].
  - unfold getModelFamily. cbv zeta.
    destruct (includes _ "claude"); [now left|].
    destruct (includes _ "gemini"); [right; now left | right; now right].
  - unfold getModelFamily. cbv zeta.
    destruct (includes _ "claude"); [discriminate|].
    destruct (includes _ "gemini"); discriminate.
  - unfold isHiddenModel, getModelFamily. cbv zeta.
    destruct (includes _ "claude"); [split; discriminate|].
    destruct (includes _ "gemini"); split; (discriminate || reflexivity).
  - reflexivity.
  - intros Hfold Hascii.
    pose proof (includes_toLowerCase modelId "claude" "claude" eq_refl) as Hc.
    pose proof (includes_toLowerCase modelId "gemini" "gemini" eq_refl) as Hg.
    unfold getModelFamily. cbv zeta. rewrite (Hfold _ Hascii).
    destruct (includes (toLowerCase modelId) "claude") eqn:Ec;
      [|destruct (includes (toLowerCase modelId) "gemini") eqn:Eg].
    + assert (Hyes : occurs_any_case "claude" modelId) by now apply Hc.
      repeat split; try discriminate; try tauto; intros; tauto.
    + assert (Hno : ~ occurs_any_case "claude" modelId)
        by (intros H; apply Hc in H; discriminate).
      assert (Hyes : occurs_any_case "gemini" modelId) by now apply Hg.
      repeat split; try discriminate; try tauto; intros; tauto.
    + assert (Hno : ~ occurs_any_case "claude" modelId)
        by (intros H; apply Hc in H; discriminate).
      assert (Hno' : ~ occurs_any_case "gemini" modelId)
        by (intros H; apply Hg in H; discriminate).
      repeat split; try discriminate; try tauto; intros; tauto.
Qed.

(** X20, on a model id in capitals, with a lower-casing that only turns the
    capitals A to Z. *)
Lemma getModelFamily_classifies_witness :
  getModelFamily toLowerCase "Claude-Sonnet-4" = "claude".
Proof.
  apply (proj1 (proj2 (proj2 (proj2 (proj2
           (getModelFamily_classifies toLowerCase "Claude-Sonnet-4"))))
           (fun s _ => eq_refl) eq_refl)).
  exists EmptyString, "Claude", "-Sonnet-4". split; reflexivity.
Defined.

Lemma sliceLast_push {A : Type} (limit : nat) (logs : list A) (log : A) :
  (0 < limit)%nat ->
  sliceLast limit (sliceLast limit logs ++ [log]) = sliceLast limit (logs ++ [log]).
Proof.
  destruct limit as [|k]; [lia|]. intros _. unfold sliceLast.
  rewrite !length_app, length_drop. simpl length.
  destruct (le_lt_dec (length logs) (S k)) as [Hshort | Hlong].
  - replace (length logs - S k)%nat with 0%nat by lia. rewrite !drop_0.
    f_equal. lia.
  - replace (length logs - (length logs - S k) + 1 - S k)%nat with 1%nat by lia.
    replace (length logs + 1 - S k)%nat with ((length logs - S k) + 1)%nat by lia.
    rewrite <- drop_drop. f_equal.
    rewrite drop_app_le by lia. reflexivity.
Qed.

Lemma pushLog_sliceLast {A : Type} (limit : nat) (logs : list A) (log : A) :
  (0 < limit)%nat -> pushLog limit logs log = sliceLast limit (logs ++ [log]).
Proof.
  intros Hpos. unfold pushLog. cbv zeta.
  destruct (Nat.ltb_spec limit (length (logs ++ [log]))) as [Hlt | Hge];
    [reflexivity|].
  unfold sliceLast. destruct limit; [lia|].
  replace (length (logs ++ [log]) - S limit)%nat with 0%nat by lia.
  now rewrite drop_0.
Qed.

(** X21: with a positive limit, after any messages have arrived the buffer
    holds exactly the last [limit] of everything it held and received, in
    order, so never more than [limit] entries, and the newest message is
    always its last entry. *)
Theorem pushLog_keeps_latest {A : Type} (limit : nat) (logs stream : list A)
  (newest : A) :
  (0 < limit)%nat ->
  fold_left (pushLog limit) (stream ++ [newest]) logs
  = sliceLast limit (logs ++ stream ++ [newest])
  /\ (length (fold_left (pushLog limit) (stream ++ [newest]) logs) <= limit)%nat
  /\ last (fold_left (pushLog limit) (stream ++ [newest]) logs) = Some newest
  /\ suffix (fold_left (pushLog limit) (stream ++ [newest]) logs)
       (logs ++ stream ++ [newest]).
Proof.
  intros Hpos.
  assert (Hfold : forall (msgs : list A) (x : A) (buffer : list A),
            fold_left (pushLog limit) (msgs ++ [x]) buffer
            = sliceLast limit (buffer ++ msgs ++ [x])).
  { induction msgs as [|m msgs IH] using rev_ind; intros x buffer.
    - simpl. now apply pushLog_sliceLast.
    - rewrite fold_left_app. simpl. rewrite IH.
      rewrite pushLog_sliceLast by exact Hpos.
      rewrite sliceLast_push by exact Hpos.
      now rewrite <- !app_assoc. }
  rewrite Hfold. unfold sliceLast. destruct limit as [|k]; [lia|].
  split; [reflexivity|]. split; [|split].
  - rewrite length_drop. lia.
  - rewrite !app_assoc.
    set (all := logs ++ stream).
    destruct (le_lt_dec (length (all ++ [newest])) (S k)) as [Hshort | Hlong].
    + replace (length (all ++ [newest]) - S k)%nat with 0%nat by lia.
      rewrite drop_0. apply last_snoc.
    + rewrite length_app in *. simpl length in *.
      rewrite drop_app_le by lia. apply last_snoc.
  - exists (take (length (logs ++ stream ++ [newest]) - S k) (logs ++ stream ++ [newest])).
    now rewrite take_drop.
Qed.

(** X21, with a limit of two and three messages. *)
Lemma pushLog_keeps_latest_witness :
  fold_left (pushLog 2) (["first"; "second"] ++ ["third"]) []
  = sliceLast 2 ([] ++ ["first"; "second"] ++ ["third"]).
Proof.
  apply (proj1 (pushLog_keeps_latest 2 [] ["first"; "second"] "third"
                  (Nat.lt_0_succ 1))).
Defined.

(** * Properties of the console logger *)

Lemma logWith_keeps (m : LogMethod) (args : list string) (p : Page) :
  debugEnabled (logWith m args p) = debugEnabled p
  /\ ag_debug (logWith m args p) = ag_debug p
  /\ urlDebug (logWith m args p) = urlDebug p
  /\ localStorageThrows (logWith m args p) = localStorageThrows p.
Proof. destruct m; simpl; destruct (debugEnabled p) eqn:Hd; simpl; auto. Qed.

(** X22: while debug mode is off, [debug], [info], [log] and also [warn] write
    nothing: after any sequence of logging calls the console has gained
    exactly the lines of the [warnAlways] and [error] calls, in order.  While
    it is on, every call writes one line.  No logging call changes the flag
    or the stored preference. *)
Theorem logAll_quiet (p : Page) (calls : list (LogMethod * list string)) :
  (debugEnabled p = false ->
   console (logAll p calls) = console p ++ flat_map loudLine calls)
  /\ (debugEnabled p = true ->
      length (console (logAll p calls)) = (length (console p) + length calls)%nat)
  /\ debugEnabled (logAll p calls) = debugEnabled p
  /\ ag_debug (logAll p calls) = ag_debug p.
Proof.
  unfold logAll. revert p.
  induction calls as [|[m args] calls IH]; intros p; simpl fold_left.
  - simpl. rewrite app_nil_r. repeat split; lia.
  - destruct (IH (logWith m args p)) as (Hquiet & Hloud & Hflag & Hstored).
    destruct (logWith_keeps m args p) as (Hd & Hs & _ & _).
    cbn [fst snd]. split; [|split; [|split]].
    + intros Hoff. rewrite Hquiet by now rewrite Hd.
      simpl. unfold loudLine at 1. cbn [fst snd].
      destruct m; simpl; rewrite ?Hoff; simpl; now rewrite <- ?app_assoc.
    + intros Hon. rewrite Hloud by now rewrite Hd.
      destruct m; simpl; rewrite ?Hon; simpl; rewrite ?length_app; simpl; lia.
    + now rewrite Hflag.
    + now rewrite Hstored.
Qed.

(** X22, a warning and an error with debug mode off: only the error shows. *)
Lemma logAll_quiet_witness :
  console
    (logAll {| urlDebug := None; localStorageThrows := false; ag_debug := None;
               debugEnabled := false; console := [] |}
       [(MWarn, ["Chart.js not loaded"%string]); (MError, ["Fetch error"%string])])
  = [] ++ flat_map loudLine
            [(MWarn, ["Chart.js not loaded"%string]); (MError, ["Fetch error"%string])].
Proof.
  apply (proj1 (logAll_quiet
                  {| urlDebug := None; localStorageThrows := false; ag_debug := None;
                     debugEnabled := false; console := [] |}
                  [(MWarn, ["Chart.js not loaded"%string]);
                   (MError, ["Fetch error"%string])])).
  reflexivity.
Defined.

(** X23: when the storage works, [enableDebug] turns debug mode on and a
    later [refresh] keeps it on; [disableDebug] turns it off, and a later
    [refresh] turns it back on exactly when the URL carries [debug=true].
    When the storage throws, neither [enableDebug] nor [disableDebug]
    changes the mode, and [refresh] follows the URL alone. *)
Theorem debug_mode_switch (p : Page) :
  (localStorageThrows p = false ->
   isDebug (enableDebug p) = true
   /\ isDebug (refresh (enableDebug p)) = true
   /\ isDebug (disableDebug p) = false
   /\ (isDebug (refresh (disableDebug p)) = true <-> urlDebug p = Some "true"))
  /\ (localStorageThrows p = true ->
      isDebug (enableDebug p) = isDebug p
      /\ isDebug (disableDebug p) = isDebug p
      /\ (isDebug (refresh p) = true <-> urlDebug p = Some "true")).
Proof.
  split; intros Hst.
  - unfold enableDebug, disableDebug, refresh, isDebug, isDebugEnabled.
    rewrite Hst. simpl. rewrite ?Hst.
    repeat split.
    + destruct (urlDebug p) as [v|]; [|reflexivity].
      now destruct (String.eqb v "true").
    + destruct (urlDebug p) as [v|]; [|discriminate].
      destruct (String.eqb_spec v "true") as [-> | Hne]; [reflexivity | discriminate].
    + intros ->. reflexivity.
  - unfold enableDebug, disableDebug, refresh, isDebug, isDebugEnabled.
    rewrite Hst. simpl. rewrite ?Hst.
    repeat split.
    + destruct (urlDebug p) as [v|]; [|discriminate].
      destruct (String.eqb_spec v "true") as [-> | Hne]; [reflexivity | discriminate].
    + intros ->. reflexivity.
Qed.

(** X23, disabling debug mode on a page opened with [?debug=true]. *)
Lemma debug_mode_switch_witness :
  isDebug (refresh (disableDebug
    {| urlDebug := Some "true"%string; localStorageThrows := false;
       ag_debug := Some "true"%string; debugEnabled := true; console := [] |}))
  = true.
Proof.
  apply (proj2 (proj2 (proj2 (proj1 (debug_mode_switch
    {| urlDebug := Some "true"%string; localStorageThrows := false;
       ag_debug := Some "true"%string; debugEnabled := true; console := [] |})
    eq_refl)))).
  reflexivity.
Defined.
